(** * Cloudflare Observer: usage aggregation and cost estimation

    A shallow embedding of [src/lib/cloudflare/{types,metrics,graphql,api}.ts]
    and the properties the specification states about them.

    Modelling conventions.
    - A JavaScript [number] is an exact rational ([Q]).  IEEE-754 rounding,
      NaN and the infinities are outside the model, so every equation between
      computed numbers is [==] (equality of rationals).
    - A value read through [??] or [?.] is an [option]: [None] stands for
      [null]/[undefined].
    - An [async] function is its completion: [Normal v] for a fulfilled
      promise, [Throw msg] for a promise rejected with [new Error(msg)].
    - Strings are [string] (bytes); [toLowerCase] acts on ASCII letters.
    - A [Date] is its time value, milliseconds since the epoch, in [Z]; the
      host time zone is a fixed offset. *)

From Stdlib Require Import ZArith QArith Qminmax Lia Lqa.
From Stdlib Require Import Bool List String Ascii DecimalString.
From Stdlib Require Import Permutation.
Import ListNotations.


(** ** JavaScript values and built-ins used by the sources *)

Module JS.

(** [number] *)
Abbreviation number := Q (only parsing).

(** [a ?? b] *)
Definition nullish {A} (a : option A) (b : A) : A :=
  match a with Some v => v | None => b end.

(** [a?.f] *)
Definition optchain {A B} (a : option A) (f : A -> B) : option B :=
  match a with Some v => Some (f v) | None => None end.

(** [a?.f] where the field itself may hold [null] *)
Definition optchain_null {A B} (a : option A) (f : A -> option B) : option B :=
  match a with Some v => f v | None => None end.

(** [Math.max(a, b)] on two arguments *)
Definition Math_max (a b : number) : number := Qmax a b.

(** Completion of a call: a returned value or a thrown [Error] with its
    [message]. *)
Inductive Completion (A : Type) : Type :=
| Normal (v : A)
| Throw (message : string).
Arguments Normal {A} v.
Arguments Throw {A} message.

Definition bind {A B} (c : Completion A) (k : A -> Completion B) : Completion B :=
  match c with
  | Normal v => k v
  | Throw m => Throw m
  end.

(** [await Promise.all([a, b])]: when both reject, the rejection that
    settles first wins; [a_first] says whether that is [a]. *)
Definition Promise_all2 {A B} (a_first : bool)
    (a : Completion A) (b : Completion B) : Completion (A * B) :=
  match a, b with
  | Normal x, Normal y => Normal (x, y)
  | Throw e, Normal _ => Throw e
  | Normal _, Throw e => Throw e
  | Throw e1, Throw e2 => Throw (if a_first then e1 else e2)
  end.

(** [Array.prototype.reduce(f, init)] *)
Definition reduce {A B} (f : B -> A -> B) (init : B) (items : list A) : B :=
  fold_left f items init.

(** [items[0]] *)
Definition first {A} (items : list A) : option A := hd_error items.

End JS.
Import JS.

Declare Scope js_scope.
Delimit Scope js_scope with js.
Notation "x <- c ;; k" := (bind c (fun x => k))
  (at level 61, c at next level, right associativity) : js_scope.
Notation "' p <- c ;; k" := (bind c (fun x => match x with p => k end))
  (at level 61, p pattern, c at next level, right associativity) : js_scope.
Notation "a ?? b" := (nullish a b) (at level 45, left associativity) : js_scope.

Open Scope Q_scope.
Open Scope string_scope.

(** ** [types.ts]: data model and pricing tables *)

Module Types.

Record R2OperationsGroup := {
  r2_actionType : string;           (* dimensions.actionType *)
  r2_requests : number              (* sum.requests *)
}.

Record R2StorageGroup := {
  payloadSize : option number;      (* max.payloadSize, read through ?? *)
  metadataSize : number;
  objectCount : number
}.

Record KVOperationsGroup := {
  kv_actionType : string;           (* dimensions.actionType *)
  kv_requests : number              (* sum.requests *)
}.

Record KVStorageGroup := {
  byteCount : option number;        (* max.byteCount, read through ?? *)
  keyCount : number
}.

Record D1AnalyticsGroup := {
  rowsRead : option number;         (* sum.rowsRead, read through ?? *)
  rowsWritten : option number;
  d1a_databaseId : string
}.

Record D1StorageGroup := {
  databaseSizeBytes : option number;
  d1s_databaseId : string
}.

Record UsageMetric := {
  name : string;
  current : number;
  limit : number;
  unit_ : string;
  percentage : number;
  overageCost : number;
  rate : option string
}.

Record ProductUsage := {
  product : string;
  metrics : list UsageMetric;
  totalOverageCost : number
}.

Record ServiceError := {
  service : string;
  message : string
}.

Record BillingPeriod := {
  start : string;
  end_ : string
}.

Record CloudflareUsageData := {
  r2 : option ProductUsage;
  workers : option ProductUsage;
  kv : option ProductUsage;
  d1 : option ProductUsage;
  images : option ProductUsage;
  ai : option ProductUsage;
  vectorize : option ProductUsage;
  errors : list ServiceError;
  totalEstimatedCost : number;
  billingPeriod : BillingPeriod
}.

Definition R2_CLASS_A_OPERATIONS : list string :=
  [ "ListBuckets"; "PutBucket"; "ListObjects"; "PutObject"; "CopyObject";
    "CompleteMultipartUpload"; "CreateMultipartUpload";
    "ListMultipartUploads"; "UploadPart"; "UploadPartCopy"; "ListParts";
    "PutBucketEncryption"; "PutBucketCors";
    "PutBucketLifecycleConfiguration" ].

Definition R2_CLASS_B_OPERATIONS : list string :=
  [ "HeadBucket"; "HeadObject"; "GetObject"; "UsageSummary";
    "GetBucketEncryption"; "GetBucketLocation"; "GetBucketCors";
    "GetBucketLifecycleConfiguration"; "DeleteObject"; "DeleteBucket";
    "AbortMultipartUpload" ].

Module WORKERS_PAID_LIMITS.
Definition requestsPerMonth : number := 10000000.
Definition cpuMsPerMonth : number := 30000000.
Definition requestOveragePer1M : number := 0.3.
Definition cpuOveragePer1M : number := 0.02.
Definition baseCost : number := 5.
End WORKERS_PAID_LIMITS.

Module R2_LIMITS.
Definition storageGB : number := 10.
Definition classAOperations : number := 1000000.
Definition classBOperations : number := 10000000.
Definition storagePerGB : number := 0.015.
Definition classAOveragePer1M : number := 4.5.
Definition classBOveragePer1M : number := 0.36.
End R2_LIMITS.

Module KV_PAID_LIMITS.
Definition storageGB : number := 1.
Definition readsPerMonth : number := 10000000.
Definition writesPerMonth : number := 1000000.
Definition deletesPerMonth : number := 1000000.
Definition listsPerMonth : number := 1000000.
Definition storagePerGB : number := 0.5.
Definition readOveragePer1M : number := 0.5.
Definition writeOveragePer1M : number := 5.
Definition deleteOveragePer1M : number := 5.
Definition listOveragePer1M : number := 5.
End KV_PAID_LIMITS.

Module D1_LIMITS.
Definition rowsReadPerMonth : number := 25000000000.
Definition rowsWrittenPerMonth : number := 50000000.
Definition storageGB : number := 5.
Definition rowsReadOveragePer1M : number := 0.001.
Definition rowsWrittenOveragePer1M : number := 1.
Definition storageOveragePerGB : number := 0.75.
End D1_LIMITS.

Module IMAGES_LIMITS.
Definition transformationsPerMonth : number := 0.
Definition storedImages : number := 0.
Definition deliveredImages : number := 0.
Definition transformationsPer1K : number := 0.5.
Definition storedPer100K : number := 1.
Definition deliveredPer100K : number := 1.
End IMAGES_LIMITS.

Module WORKERS_AI_LIMITS.
Definition neuronsPerDay : number := 10000.
Definition neuronOveragePer1K : number := 0.011.
End WORKERS_AI_LIMITS.

Module VECTORIZE_LIMITS.
Definition queriedDimensionsPerMonth : number := 30000000.
Definition storedDimensionsPerMonth : number := 5000000.
Definition queriedOveragePer1M : number := 0.01.
Definition storedOveragePer1M : number := 0.05.
End VECTORIZE_LIMITS.

End Types.
Import Types.

(** ** [metrics.ts]: overage calculators and metric builders *)

Module Metrics.

(** Modelled from the spec: [bytesToGB] is imported from [@/lib/formatters],
    which is not among the sources; the specification fixes it as division
    by 1024^3 (binary GiB). *)
Definition bytesToGB (bytes : number) : number :=
  bytes / (1024 * 1024 * 1024).

Definition calculateOverage (current limit costPer1M : number) : number :=
  let overage := Math_max 0 (current - limit) in
  (overage / 1000000) * costPer1M.

Definition calculateStorageOverage (currentGB limitGB costPerGB : number) : number :=
  let overage := Math_max 0 (currentGB - limitGB) in
  overage * costPerGB.

Definition calculatePer100KCost (current costPer100K : number) : number :=
  (current / 100000) * costPer100K.

Definition calculatePer1KCost (current limit costPer1K : number) : number :=
  let overage := Math_max 0 (current - limit) in
  (overage / 1000) * costPer1K.

Record MetricInput := {
  mi_name : string;
  mi_current : number;
  mi_limit : number;
  mi_unit : string;
  mi_rate : string
}.

(** [limit > 0] as the conditional of [buildMetric] tests it *)
Definition gt0 (x : number) : bool := negb (Qle_bool x 0).

Definition buildMetric (input : MetricInput) (overageCost : number) : UsageMetric :=
  let '(Build_MetricInput name current limit unit rate) := input in
  {| name := name;
     current := current;
     limit := limit;
     unit_ := unit;
     percentage := if gt0 limit then (current / limit) * 100 else 0;
     overageCost := overageCost;
     rate := Some rate |}.

Definition buildProductUsage (product : string) (metrics : list UsageMetric)
    : ProductUsage :=
  let totalOverageCost :=
    reduce (fun sum m => sum + m.(overageCost)) 0 metrics in
  {| product := product; metrics := metrics;
     totalOverageCost := totalOverageCost |}.

Definition sumField {T} (items : list T) (getter : T -> option number) : number :=
  reduce (fun sum item => sum + (getter item ?? 0)%js) 0 items.

Definition maxField {T} (items : list T) (getter : T -> option number) : number :=
  reduce (fun max item => Math_max max (getter item ?? 0)%js) 0 items.

(** The calculators as calls: their bodies contain no [throw], so every
    call completes normally with the computed number. *)
Definition call_calculateOverage (c l r : number) : Completion number :=
  Normal (calculateOverage c l r).
Definition call_calculateStorageOverage (c l r : number) : Completion number :=
  Normal (calculateStorageOverage c l r).
Definition call_calculatePer100KCost (c r : number) : Completion number :=
  Normal (calculatePer100KCost c r).
Definition call_calculatePer1KCost (c l r : number) : Completion number :=
  Normal (calculatePer1KCost c l r).

End Metrics.
Import Metrics.


(** ** [String.prototype] methods used by the aggregators *)

Module JSString.

Definition lower_ascii (c : ascii) : ascii :=
  let n := nat_of_ascii c in
  if ((65 <=? n) && (n <=? 90))%nat then ascii_of_nat (n + 32) else c.

(** [s.toLowerCase()] *)
Fixpoint toLowerCase (s : string) : string :=
  match s with
  | EmptyString => EmptyString
  | String c rest => String (lower_ascii c) (toLowerCase rest)
  end.

(** [s.includes(pat)] *)
Fixpoint includes (s pat : string) : bool :=
  String.prefix pat s ||
  match s with
  | EmptyString => false
  | String _ rest => includes rest pat
  end.

(** [arr.includes(x)] on an array of strings *)
Definition array_includes (arr : list string) (x : string) : bool :=
  existsb (String.eqb x) arr.

(** [s.slice(0, n)] *)
Definition slice0 (n : nat) (s : string) : string := String.substring 0 n s.

End JSString.
Import JSString.

(** ** [Date]: the abstract operations of ECMA-262 (section "Date Objects") *)

Module JSDate.

Local Open Scope Z_scope.

Definition msPerDay : Z := 86400000.
Definition msPerHour : Z := 3600000.
Definition msPerMinute : Z := 60000.
Definition msPerSecond : Z := 1000.

Definition Day (t : Z) : Z := t / msPerDay.
Definition TimeWithinDay (t : Z) : Z := t mod msPerDay.

Definition DaysInYear (y : Z) : Z :=
  if negb (y mod 4 =? 0) then 365
  else if negb (y mod 100 =? 0) then 366
  else if negb (y mod 400 =? 0) then 365
  else 366.

Definition DayFromYear (y : Z) : Z :=
  365 * (y - 1970) + (y - 1969) / 4 - (y - 1901) / 100 + (y - 1601) / 400.

(** The largest [y] with [DayFromYear y <= d]: an estimate from the mean
    year length, corrected by at most one year. *)
Definition YearFromDay (d : Z) : Z :=
  let y := 1970 + (400 * d) / 146097 in
  if DayFromYear (y + 1) <=? d then y + 1
  else if DayFromYear y <=? d then y
  else y - 1.

Definition YearFromTime (t : Z) : Z := YearFromDay (Day t).

Definition leap (y : Z) : Z := if DaysInYear y =? 366 then 1 else 0.
Definition InLeapYear (t : Z) : Z := leap (YearFromTime t).

Definition DayWithinYear (t : Z) : Z := Day t - DayFromYear (YearFromTime t).

Definition MonthFromTime (t : Z) : Z :=
  let d := DayWithinYear t in
  let l := InLeapYear t in
  if d <? 31 then 0
  else if d <? 59 + l then 1
  else if d <? 90 + l then 2
  else if d <? 120 + l then 3
  else if d <? 151 + l then 4
  else if d <? 181 + l then 5
  else if d <? 212 + l then 6
  else if d <? 243 + l then 7
  else if d <? 273 + l then 8
  else if d <? 304 + l then 9
  else if d <? 334 + l then 10
  else 11.

Definition DateFromTime (t : Z) : Z :=
  let d := DayWithinYear t in
  let l := InLeapYear t in
  match MonthFromTime t with
  | 0 => d + 1
  | 1 => d - 30
  | 2 => d - 58 - l
  | 3 => d - 89 - l
  | 4 => d - 119 - l
  | 5 => d - 150 - l
  | 6 => d - 180 - l
  | 7 => d - 211 - l
  | 8 => d - 242 - l
  | 9 => d - 272 - l
  | 10 => d - 303 - l
  | _ => d - 333 - l
  end.

Definition HourFromTime (t : Z) : Z := (t / msPerHour) mod 24.
Definition MinFromTime (t : Z) : Z := (t / msPerMinute) mod 60.
Definition SecFromTime (t : Z) : Z := (t / msPerSecond) mod 60.
Definition msFromTime (t : Z) : Z := t mod msPerSecond.

Definition MakeTime (hour min sec ms : Z) : Z :=
  hour * msPerHour + min * msPerMinute + sec * msPerSecond + ms.

(** Days from 1 January to the first of month [mn] (0-based) of year [y]. *)
Definition DaysBeforeMonth (y mn : Z) : Z :=
  let l := leap y in
  match mn with
  | 0 => 0
  | 1 => 31
  | 2 => 59 + l
  | 3 => 90 + l
  | 4 => 120 + l
  | 5 => 151 + l
  | 6 => 181 + l
  | 7 => 212 + l
  | 8 => 243 + l
  | 9 => 273 + l
  | 10 => 304 + l
  | _ => 334 + l
  end.

Definition MakeDay (year month date : Z) : Z :=
  let ym := year + month / 12 in
  let mn := month mod 12 in
  DayFromYear ym + DaysBeforeMonth ym mn + date - 1.

Definition MakeDate (day time : Z) : Z := day * msPerDay + time.

(** Local time with a fixed offset [tza] (milliseconds east of UTC). *)
Definition LocalTime (tza t : Z) : Z := t + tza.
Definition UTC (tza t : Z) : Z := t - tza.

(** [new Date(year, month, date)]: local midnight of that day. *)
Definition newDate (tza year month date : Z) : Z :=
  let yr := if (0 <=? year) && (year <=? 99) then 1900 + year else year in
  UTC tza (MakeDate (MakeDay yr month date) (MakeTime 0 0 0 0)).

Definition getFullYear (tza t : Z) : Z := YearFromTime (LocalTime tza t).
Definition getMonth (tza t : Z) : Z := MonthFromTime (LocalTime tza t).
Definition getDate (tza t : Z) : Z := DateFromTime (LocalTime tza t).
Definition getUTCMonth (t : Z) : Z := MonthFromTime t.

Definition setUTCDate (t date : Z) : Z :=
  MakeDate (MakeDay (YearFromTime t) (MonthFromTime t) date) (TimeWithinDay t).

Definition setUTCMonth (t month : Z) : Z :=
  MakeDate (MakeDay (YearFromTime t) month (DateFromTime t)) (TimeWithinDay t).

Definition setUTCHours (t hour min sec ms : Z) : Z :=
  MakeDate (Day t) (MakeTime hour min sec ms).

(** The [w] low decimal digits of [n], most significant first. *)
Fixpoint digits (w : nat) (n : Z) : string :=
  match w with
  | O => EmptyString
  | S w' =>
      (digits w' (n / 10) ++
       String (ascii_of_nat (48 + Z.to_nat (n mod 10))) EmptyString)%string
  end.

Definition isoYear (y : Z) : string :=
  if (0 <=? y) && (y <=? 9999) then digits 4 y
  else ((if (y <? 0)%Z then "-" else "+") ++ digits 6 (Z.abs y))%string.

(** [d.toISOString()]: [YYYY-MM-DDTHH:mm:ss.sssZ] in UTC. *)
Definition toISOString (t : Z) : string :=
  (isoYear (YearFromTime t) ++ "-" ++ digits 2 (MonthFromTime t + 1)%Z ++ "-" ++
   digits 2 (DateFromTime t) ++ "T" ++ digits 2 (HourFromTime t) ++ ":" ++
   digits 2 (MinFromTime t) ++ ":" ++ digits 2 (SecFromTime t) ++ "." ++
   digits 3 (msFromTime t) ++ "Z")%string.

End JSDate.
Import JSDate.


(** ** [graphql.ts]: configuration, query window and the upstream fetch *)

Module GraphQL.

Record Env := {
  CLOUDFLARE_ACCOUNT_ID : option string;
  CLOUDFLARE_API_TOKEN : option string
}.

(** [!v] for [v : string | undefined] *)
Definition falsy (v : option string) : bool :=
  match v with
  | Some (String _ _) => false
  | _ => true
  end.

Definition getAccountId (env : Env) : Completion string :=
  match env.(CLOUDFLARE_ACCOUNT_ID) with
  | Some (String c rest) => Normal (String c rest)
  | _ => Throw "Missing CLOUDFLARE_ACCOUNT_ID"
  end.

Definition getMonthStart (now : Z) : string :=
  let date := now in
  let date := setUTCDate date 1 in
  let date := setUTCHours date 0 0 0 0 in
  toISOString date.

Definition getMonthEnd (now : Z) : string :=
  let date := now in
  let date := setUTCMonth date (getUTCMonth date + 1) in
  let date := setUTCDate date 0 in
  let date := setUTCHours date 23 59 59 999 in
  toISOString date.

(** [s.split("T")[0]] *)
Fixpoint split_T_0 (s : string) : string :=
  match s with
  | EmptyString => EmptyString
  | String c rest => if Ascii.eqb c "T" then EmptyString else String c (split_T_0 rest)
  end.

Definition getMonthStartDate (now : Z) : string := split_T_0 (getMonthStart now).

(** What the analytics endpoint does with one query, as [fetchGraphQL]
    observes it.  [T] is the type of one element of
    [data.viewer.accounts]. *)
Inductive Reply (T : Type) : Type :=
| FetchRejected (message : string)                 (* [fetch] rejects *)
| HttpStatus (status : Z) (responseText : string)  (* [res.ok] is false *)
| ParseFailure (message : string)                  (* [JSON.parse] throws *)
| ErrorPayload (message : string)                  (* [data.errors[0].message] *)
| Payload (accounts : list T).                     (* [data.data.viewer.accounts] *)
Arguments FetchRejected {T} message.
Arguments HttpStatus {T} status responseText.
Arguments ParseFailure {T} message.
Arguments ErrorPayload {T} message.
Arguments Payload {T} accounts.

Record GraphQLResponse (T : Type) := { accounts : list T }.
Arguments accounts {T} _.
Arguments Build_GraphQLResponse {T} _.

Definition fetchGraphQL {T} (env : Env) (reply : Reply T)
    : Completion (GraphQLResponse T) :=
  let accountId := env.(CLOUDFLARE_ACCOUNT_ID) in
  let apiToken := env.(CLOUDFLARE_API_TOKEN) in
  if falsy accountId || falsy apiToken then
    Throw "Missing CLOUDFLARE_ACCOUNT_ID or CLOUDFLARE_API_TOKEN in .dev.vars"
  else
    match reply with
    | FetchRejected m => Throw m
    | HttpStatus status responseText =>
        Throw ("Cloudflare API error: " ++ NilZero.string_of_int (Z.to_int status)
               ++ " - " ++ slice0 200 responseText)
    | ParseFailure m => Throw m
    | ErrorPayload m => Throw ("GraphQL error: " ++ m)
    | Payload accounts => Normal {| accounts := accounts |}
    end.

Definition extractAccountData {T} (data : GraphQLResponse T) : option T :=
  first data.(accounts).

End GraphQL.
Import GraphQL.

(** ** [api.ts]: the seven product aggregators and the account summary *)

Module Api.

(** The seven branches of the fan-out, in array order. *)
Inductive Slot := R2 | Workers | KV | D1 | Images | AI | Vectorize.

Definition all_slots : list Slot := [R2; Workers; KV; D1; Images; AI; Vectorize].

Definition Slot_eqb (a b : Slot) : bool :=
  match a, b with
  | R2, R2 | Workers, Workers | KV, KV | D1, D1
  | Images, Images | AI, AI | Vectorize, Vectorize => true
  | _, _ => false
  end.

(** The label each branch hands to [captureError]. *)
Definition service_name (s : Slot) : string :=
  match s with
  | R2 => "R2 Storage"
  | Workers => "Workers"
  | KV => "Workers KV"
  | D1 => "D1 Database"
  | Images => "Images"
  | AI => "Workers AI"
  | Vectorize => "Vectorize"
  end.

(** Counter groups whose type [api.ts] writes inline. *)
Record WorkersInvocation := {
  wi_requests : number;               (* sum.requests *)
  cpuTimeP50 : number                 (* quantiles.cpuTimeP50 *)
}.
Record ImagesGroup := { img_requests : option number }.
Record AIGroup := { totalNeurons : option number }.
Record VectorizeQueriesGroup := { queriedVectorDimensions : option number }.
Record VectorizeStorageGroup := { storedVectorDimensions : option number }.

(** One element of [accounts]: the object's single field, the group list,
    which the aggregators read through [?.] and [?? []]. *)
Definition Account (G : Type) := option (list G).

Record Upstream := {
  r2OperationsAdaptiveGroups : Reply (Account R2OperationsGroup);
  r2StorageAdaptiveGroups : Reply (Account R2StorageGroup);
  workersInvocationsAdaptive : Reply (Account WorkersInvocation);
  kvOperationsAdaptiveGroups : Reply (Account KVOperationsGroup);
  kvStorageAdaptiveGroups : Reply (Account KVStorageGroup);
  d1AnalyticsAdaptiveGroups : Reply (Account D1AnalyticsGroup);
  d1StorageAdaptiveGroups : Reply (Account D1StorageGroup);
  imagesRequestsAdaptiveGroups : Reply (Account ImagesGroup);
  aiInferenceAdaptiveGroups : Reply (Account AIGroup);
  vectorizeV2QueriesAdaptiveGroups : Reply (Account VectorizeQueriesGroup);
  vectorizeV2StorageAdaptiveGroups : Reply (Account VectorizeStorageGroup)
}.

(** Everything outside the engine that one invocation depends on. *)
Record World := {
  env : Env;
  upstream : Upstream;
  tza : Z;                      (* host time-zone offset, ms east of UTC *)
  now : Z;                      (* the clock read by [new Date()] *)
  first_wins : Slot -> bool;    (* in a two-query aggregator, whether the
                                   first query settles before the second *)
  settle_time : Slot -> nat     (* when each branch of the fan-out settles *)
}.

(** [extractAccountData(data)?.<groups> ?? []] *)
Definition groups_of {G} (data : GraphQLResponse (Account G)) : list G :=
  (optchain_null (extractAccountData data) (fun account => account) ?? [])%js.

(** *** R2 *)

Definition r2_step (totals : number * number) (item : R2OperationsGroup)
    : number * number :=
  let '(classATotal, classBTotal) := totals in
  let action := item.(r2_actionType) in
  if array_includes R2_CLASS_A_OPERATIONS action then
    (classATotal + item.(r2_requests), classBTotal)
  else if array_includes R2_CLASS_B_OPERATIONS action then
    (classATotal, classBTotal + item.(r2_requests))
  else (classATotal, classBTotal).

Definition r2Usage (operations : list R2OperationsGroup)
    (storage : list R2StorageGroup) : ProductUsage :=
  let '(classATotal, classBTotal) := fold_left r2_step operations (0, 0) in
  let storageGB := bytesToGB (optchain_null (first storage) payloadSize ?? 0)%js in
  let classAOverage := calculateOverage classATotal R2_LIMITS.classAOperations R2_LIMITS.classAOveragePer1M in
  let classBOverage := calculateOverage classBTotal R2_LIMITS.classBOperations R2_LIMITS.classBOveragePer1M in
  let storageOverage := calculateStorageOverage storageGB R2_LIMITS.storageGB R2_LIMITS.storagePerGB in
  buildProductUsage "R2 Storage" [
    buildMetric {| mi_name := "Class A Operations"; mi_current := classATotal; mi_limit := R2_LIMITS.classAOperations; mi_unit := "requests"; mi_rate := "$4.50/1M requests" |} classAOverage;
    buildMetric {| mi_name := "Class B Operations"; mi_current := classBTotal; mi_limit := R2_LIMITS.classBOperations; mi_unit := "requests"; mi_rate := "$0.36/1M requests" |} classBOverage;
    buildMetric {| mi_name := "Storage"; mi_current := storageGB; mi_limit := R2_LIMITS.storageGB; mi_unit := "GB"; mi_rate := "$0.015/GB-month" |} storageOverage
  ].

Definition fetchR2Usage (w : World) : Completion (option ProductUsage) :=
  (accountId <- getAccountId w.(env) ;;
   let monthStart := getMonthStart w.(now) in
   '(opsData, storageData) <-
      Promise_all2 (w.(first_wins) R2)
        (fetchGraphQL w.(env) w.(upstream).(r2OperationsAdaptiveGroups))
        (fetchGraphQL w.(env) w.(upstream).(r2StorageAdaptiveGroups)) ;;
   let operations := groups_of opsData in
   let storage := groups_of storageData in
   Normal (Some (r2Usage operations storage)))%js.

(** *** Workers *)

Definition workers_step (totals : number * number) (item : WorkersInvocation)
    : number * number :=
  let '(totalRequests, totalCpuUs) := totals in
  (totalRequests + item.(wi_requests),
   totalCpuUs + item.(cpuTimeP50) * item.(wi_requests)).

Definition workersUsage (invocations : list WorkersInvocation) : ProductUsage :=
  let '(totalRequests, totalCpuUs) := fold_left workers_step invocations (0, 0) in
  let totalCpuMs := totalCpuUs / 1000 in
  let requestsOverage := calculateOverage totalRequests WORKERS_PAID_LIMITS.requestsPerMonth WORKERS_PAID_LIMITS.requestOveragePer1M in
  let cpuOverage := calculateOverage totalCpuMs WORKERS_PAID_LIMITS.cpuMsPerMonth WORKERS_PAID_LIMITS.cpuOveragePer1M in
  buildProductUsage "Workers" [
    buildMetric {| mi_name := "Requests"; mi_current := totalRequests; mi_limit := WORKERS_PAID_LIMITS.requestsPerMonth; mi_unit := "requests"; mi_rate := "$0.30/1M requests" |} requestsOverage;
    buildMetric {| mi_name := "CPU Time (est.)"; mi_current := totalCpuMs; mi_limit := WORKERS_PAID_LIMITS.cpuMsPerMonth; mi_unit := "ms"; mi_rate := "$0.02/1M ms" |} cpuOverage
  ].

Definition fetchWorkersUsage (w : World) : Completion (option ProductUsage) :=
  (accountId <- getAccountId w.(env) ;;
   let monthStart := getMonthStart w.(now) in
   let monthEnd := getMonthEnd w.(now) in
   data <- fetchGraphQL w.(env) w.(upstream).(workersInvocationsAdaptive) ;;
   let invocations := groups_of data in
   Normal (Some (workersUsage invocations)))%js.

(** *** Workers KV *)

Record KVTotals := {
  reads : number;
  writes : number;
  deletes : number;
  lists : number
}.

Definition kv_step (totals : KVTotals) (item : KVOperationsGroup) : KVTotals :=
  let '(Build_KVTotals reads writes deletes lists) := totals in
  let action := toLowerCase item.(kv_actionType) in
  if includes action "read" || includes action "get" then
    Build_KVTotals (reads + item.(kv_requests)) writes deletes lists
  else if includes action "write" || includes action "put" then
    Build_KVTotals reads (writes + item.(kv_requests)) deletes lists
  else if includes action "delete" then
    Build_KVTotals reads writes (deletes + item.(kv_requests)) lists
  else if includes action "list" then
    Build_KVTotals reads writes deletes (lists + item.(kv_requests))
  else totals.

Definition kv_totals (operations : list KVOperationsGroup) : KVTotals :=
  fold_left kv_step operations (Build_KVTotals 0 0 0 0).

Definition kvUsage (operations : list KVOperationsGroup)
    (storage : list KVStorageGroup) : ProductUsage :=
  let '(Build_KVTotals reads writes deletes lists) := kv_totals operations in
  let storageGB := bytesToGB (optchain_null (first storage) byteCount ?? 0)%js in
  let readsOverage := calculateOverage reads KV_PAID_LIMITS.readsPerMonth KV_PAID_LIMITS.readOveragePer1M in
  let writesOverage := calculateOverage writes KV_PAID_LIMITS.writesPerMonth KV_PAID_LIMITS.writeOveragePer1M in
  let deletesOverage := calculateOverage deletes KV_PAID_LIMITS.deletesPerMonth KV_PAID_LIMITS.deleteOveragePer1M in
  let listsOverage := calculateOverage lists KV_PAID_LIMITS.listsPerMonth KV_PAID_LIMITS.listOveragePer1M in
  let storageOverage := calculateStorageOverage storageGB KV_PAID_LIMITS.storageGB KV_PAID_LIMITS.storagePerGB in
  buildProductUsage "Workers KV" [
    buildMetric {| mi_name := "Reads"; mi_current := reads; mi_limit := KV_PAID_LIMITS.readsPerMonth; mi_unit := "requests"; mi_rate := "$0.50/1M reads" |} readsOverage;
    buildMetric {| mi_name := "Writes"; mi_current := writes; mi_limit := KV_PAID_LIMITS.writesPerMonth; mi_unit := "requests"; mi_rate := "$5.00/1M writes" |} writesOverage;
    buildMetric {| mi_name := "Deletes"; mi_current := deletes; mi_limit := KV_PAID_LIMITS.deletesPerMonth; mi_unit := "requests"; mi_rate := "$5.00/1M deletes" |} deletesOverage;
    buildMetric {| mi_name := "Lists"; mi_current := lists; mi_limit := KV_PAID_LIMITS.listsPerMonth; mi_unit := "requests"; mi_rate := "$5.00/1M lists" |} listsOverage;
    buildMetric {| mi_name := "Storage"; mi_current := storageGB; mi_limit := KV_PAID_LIMITS.storageGB; mi_unit := "GB"; mi_rate := "$0.50/GB-month" |} storageOverage
  ].

Definition fetchKVUsage (w : World) : Completion (option ProductUsage) :=
  (accountId <- getAccountId w.(env) ;;
   let monthStart := getMonthStart w.(now) in
   '(opsData, storageData) <-
      Promise_all2 (w.(first_wins) KV)
        (fetchGraphQL w.(env) w.(upstream).(kvOperationsAdaptiveGroups))
        (fetchGraphQL w.(env) w.(upstream).(kvStorageAdaptiveGroups)) ;;
   let operations := groups_of opsData in
   let storage := groups_of storageData in
   Normal (Some (kvUsage operations storage)))%js.

(** *** D1 *)

Definition d1Usage (analytics : list D1AnalyticsGroup)
    (storage : list D1StorageGroup) : ProductUsage :=
  let totalRowsRead := sumField analytics (fun i => i.(rowsRead)) in
  let totalRowsWritten := sumField analytics (fun i => i.(rowsWritten)) in
  let storageGB := bytesToGB (sumField storage (fun i => i.(databaseSizeBytes))) in
  let rowsReadOverage := calculateOverage totalRowsRead D1_LIMITS.rowsReadPerMonth D1_LIMITS.rowsReadOveragePer1M in
  let rowsWrittenOverage := calculateOverage totalRowsWritten D1_LIMITS.rowsWrittenPerMonth D1_LIMITS.rowsWrittenOveragePer1M in
  let storageOverage := calculateStorageOverage storageGB D1_LIMITS.storageGB D1_LIMITS.storageOveragePerGB in
  buildProductUsage "D1 Database" [
    buildMetric {| mi_name := "Rows Read"; mi_current := totalRowsRead; mi_limit := D1_LIMITS.rowsReadPerMonth; mi_unit := "rows"; mi_rate := "$0.001/1M rows" |} rowsReadOverage;
    buildMetric {| mi_name := "Rows Written"; mi_current := totalRowsWritten; mi_limit := D1_LIMITS.rowsWrittenPerMonth; mi_unit := "rows"; mi_rate := "$1.00/1M rows" |} rowsWrittenOverage;
    buildMetric {| mi_name := "Storage"; mi_current := storageGB; mi_limit := D1_LIMITS.storageGB; mi_unit := "GB"; mi_rate := "$0.75/GB-month" |} storageOverage
  ].

Definition fetchD1Usage (w : World) : Completion (option ProductUsage) :=
  (accountId <- getAccountId w.(env) ;;
   let monthStartDate := getMonthStartDate w.(now) in
   '(analyticsData, storageData) <-
      Promise_all2 (w.(first_wins) D1)
        (fetchGraphQL w.(env) w.(upstream).(d1AnalyticsAdaptiveGroups))
        (fetchGraphQL w.(env) w.(upstream).(d1StorageAdaptiveGroups)) ;;
   let analytics := groups_of analyticsData in
   let storage := groups_of storageData in
   Normal (Some (d1Usage analytics storage)))%js.

(** *** Images *)

Definition imagesUsage (images : list ImagesGroup) : ProductUsage :=
  let totalRequests := sumField images (fun i => i.(img_requests)) in
  let deliveredCost := calculatePer100KCost totalRequests IMAGES_LIMITS.deliveredPer100K in
  buildProductUsage "Images" [
    buildMetric {| mi_name := "Requests"; mi_current := totalRequests; mi_limit := 0; mi_unit := "requests"; mi_rate := "$1.00/100K requests" |} deliveredCost
  ].

Definition fetchImagesUsage (w : World) : Completion (option ProductUsage) :=
  (accountId <- getAccountId w.(env) ;;
   let monthStart := getMonthStart w.(now) in
   data <- fetchGraphQL w.(env) w.(upstream).(imagesRequestsAdaptiveGroups) ;;
   let images := groups_of data in
   Normal (Some (imagesUsage images)))%js.

(** *** Workers AI *)

(** [new Date(now.getFullYear(), now.getMonth() + 1, 0).getDate()] *)
Definition daysInMonth (tza now : Z) : Z :=
  getDate tza (newDate tza (getFullYear tza now) (getMonth tza now + 1)%Z 0).

Definition workersAIUsage (tza now : Z) (aiData : list AIGroup) : ProductUsage :=
  let totalNeurons := sumField aiData (fun i => i.(totalNeurons)) in
  let daysInMonth := daysInMonth tza now in
  let monthlyFreeNeurons := WORKERS_AI_LIMITS.neuronsPerDay * inject_Z daysInMonth in
  let neuronCost := calculatePer1KCost totalNeurons monthlyFreeNeurons WORKERS_AI_LIMITS.neuronOveragePer1K in
  buildProductUsage "Workers AI" [
    buildMetric {| mi_name := "Neurons"; mi_current := totalNeurons; mi_limit := monthlyFreeNeurons; mi_unit := "neurons"; mi_rate := "$0.011/1K neurons" |} neuronCost
  ].

Definition fetchWorkersAIUsage (w : World) : Completion (option ProductUsage) :=
  (accountId <- getAccountId w.(env) ;;
   let monthStart := getMonthStart w.(now) in
   data <- fetchGraphQL w.(env) w.(upstream).(aiInferenceAdaptiveGroups) ;;
   let aiData := groups_of data in
   Normal (Some (workersAIUsage w.(tza) w.(now) aiData)))%js.

(** *** Vectorize *)

Definition vectorizeUsage (queries : list VectorizeQueriesGroup)
    (storage : list VectorizeStorageGroup) : ProductUsage :=
  let queriedDimensions := sumField queries (fun i => i.(queriedVectorDimensions)) in
  let storedDimensions := sumField storage (fun i => i.(storedVectorDimensions)) in
  let queriedOverage := calculateOverage queriedDimensions VECTORIZE_LIMITS.queriedDimensionsPerMonth VECTORIZE_LIMITS.queriedOveragePer1M in
  let storedOverage := calculateOverage storedDimensions VECTORIZE_LIMITS.storedDimensionsPerMonth VECTORIZE_LIMITS.storedOveragePer1M in
  buildProductUsage "Vectorize" [
    buildMetric {| mi_name := "Queried Dimensions"; mi_current := queriedDimensions; mi_limit := VECTORIZE_LIMITS.queriedDimensionsPerMonth; mi_unit := "dimensions"; mi_rate := "$0.01/1M dimensions" |} queriedOverage;
    buildMetric {| mi_name := "Stored Dimensions"; mi_current := storedDimensions; mi_limit := VECTORIZE_LIMITS.storedDimensionsPerMonth; mi_unit := "dimensions"; mi_rate := "$0.05/1M dim-month" |} storedOverage
  ].

Definition fetchVectorizeUsage (w : World) : Completion (option ProductUsage) :=
  (accountId <- getAccountId w.(env) ;;
   let monthStart := getMonthStart w.(now) in
   '(queriesData, storageData) <-
      Promise_all2 (w.(first_wins) Vectorize)
        (fetchGraphQL w.(env) w.(upstream).(vectorizeV2QueriesAdaptiveGroups))
        (fetchGraphQL w.(env) w.(upstream).(vectorizeV2StorageAdaptiveGroups)) ;;
   let queries := groups_of queriesData in
   let storage := groups_of storageData in
   Normal (Some (vectorizeUsage queries storage)))%js.

(** *** The account summary *)

Definition aggregator (s : Slot) : World -> Completion (option ProductUsage) :=
  match s with
  | R2 => fetchR2Usage
  | Workers => fetchWorkersUsage
  | KV => fetchKVUsage
  | D1 => fetchD1Usage
  | Images => fetchImagesUsage
  | AI => fetchWorkersAIUsage
  | Vectorize => fetchVectorizeUsage
  end.

(** Code that reads and pushes onto the shared [errors] array. *)
Definition Errs (A : Type) : Type := list ServiceError -> A * list ServiceError.

(** [captureError(service)(e)]: push [{ service, message: e.message }],
    return [null].  (The [console.error] line is not modelled.) *)
Definition captureError (service : string) (e : string)
    : Errs (option ProductUsage) :=
  fun errors =>
    (None, (errors ++ [{| service := service; message := e |}])%list).

(** [p.catch(handler)] once [p] has settled *)
Definition catch_ (p : Completion (option ProductUsage))
    (handler : string -> Errs (option ProductUsage))
    : Errs (option ProductUsage) :=
  match p with
  | Normal v => fun errors => (v, errors)
  | Throw e => handler e
  end.

(** The order in which the seven branches settle: the slots sorted by
    settle time, ties in array order. *)
Fixpoint insert_by (t : Slot -> nat) (s : Slot) (l : list Slot) : list Slot :=
  match l with
  | [] => [s]
  | x :: rest =>
      if (t s <=? t x)%nat then s :: x :: rest else x :: insert_by t s rest
  end.

Definition settle_order (t : Slot -> nat) : list Slot :=
  fold_right (insert_by t) [] all_slots.

(** The array [Promise.all] fulfils with, indexed by slot. *)
Definition Results := Slot -> option ProductUsage.

Definition set_result (res : Results) (s : Slot) (v : option ProductUsage)
    : Results :=
  fun s' => if Slot_eqb s s' then v else res s'.

(** [await Promise.all(branches)]: the branches run their handlers in
    settle order; each writes its own slot of the result array. *)
Definition Promise_all (order : list Slot)
    (branch : Slot -> Errs (option ProductUsage)) : Errs Results :=
  fun errors =>
    fold_left
      (fun (st : Results * list ServiceError) s =>
         let '(res, errs) := st in
         let '(v, errs') := branch s errs in
         (set_result res s v, errs'))
      order (fun _ => None, errors).

(** The body of [$fetchAllUsage], with the seven aggregator calls given by
    their completions. *)
Definition fetchAllUsage_from (env : Env) (tza now : Z)
    (settle_time : Slot -> nat)
    (call : Slot -> Completion (option ProductUsage))
    : Completion CloudflareUsageData :=
  (_ <- getAccountId env ;;
   let errors := [] in
   let '(res, errors) :=
     Promise_all (settle_order settle_time)
       (fun s => catch_ (call s) (captureError (service_name s))) errors in
   let r2 := res R2 in
   let workers := res Workers in
   let kv := res KV in
   let d1 := res D1 in
   let images := res Images in
   let ai := res AI in
   let vectorize := res Vectorize in
   let overageCosts :=
     reduce (fun sum item => sum + (optchain item totalOverageCost ?? 0))
       0 [r2; workers; kv; d1; images; ai; vectorize] in
   let monthStart := newDate tza (getFullYear tza now) (getMonth tza now) 1 in
   let monthEnd := newDate tza (getFullYear tza now) (getMonth tza now + 1)%Z 0 in
   Normal {|
     r2 := r2; workers := workers; kv := kv; d1 := d1;
     images := images; ai := ai; vectorize := vectorize;
     errors := errors;
     totalEstimatedCost := WORKERS_PAID_LIMITS.baseCost + overageCosts;
     billingPeriod := {| start := toISOString monthStart;
                         end_ := toISOString monthEnd |}
   |})%js.

Definition fetchAllUsage (w : World) : Completion CloudflareUsageData :=
  fetchAllUsage_from w.(env) w.(tza) w.(now) w.(settle_time)
    (fun s => aggregator s w).

(** The product slot of a summary, by branch. *)
Definition slot (d : CloudflareUsageData) (s : Slot) : option ProductUsage :=
  match s with
  | R2 => d.(r2)
  | Workers => d.(workers)
  | KV => d.(kv)
  | D1 => d.(d1)
  | Images => d.(images)
  | AI => d.(ai)
  | Vectorize => d.(vectorize)
  end.

End Api.
Import Api.

(** ** The specification's own notions, for comparison with the code *)

Module Spec.

(** The sum of a finite list of numbers. *)
Fixpoint total (xs : list number) : number :=
  match xs with
  | [] => 0
  | x :: rest => x + total rest
  end.

(** The products a summary holds (its non-null slots), in array order. *)
Definition present (d : CloudflareUsageData) : list ProductUsage :=
  flat_map (fun s => match slot d s with Some p => [p] | None => [] end)
    all_slots.

(** What a branch leaves in its slot: the aggregator's own result, or
    [null] when it failed. *)
Definition settled_value (call : Slot -> Completion (option ProductUsage))
    (s : Slot) : option ProductUsage :=
  match call s with
  | Normal v => v
  | Throw _ => None
  end.

(** What a branch adds to the error list: one [ServiceError] when it
    failed, nothing otherwise. *)
Definition pushed (call : Slot -> Completion (option ProductUsage))
    (s : Slot) : list ServiceError :=
  match call s with
  | Normal _ => []
  | Throw e => [{| service := service_name s; message := e |}]
  end.

(** One [ServiceError] per failing branch, in array order. *)
Definition failures (call : Slot -> Completion (option ProductUsage))
    : list ServiceError :=
  flat_map (pushed call) all_slots.

(** The errors of a list that carry the label of branch [s]. *)
Definition errors_of (s : Slot) (errs : list ServiceError)
    : list ServiceError :=
  filter (fun e => String.eqb e.(service) (service_name s)) errs.

(** A call is rejected when it completes by throwing. *)
Definition rejects {A} (c : Completion A) : Prop := exists msg, c = Throw msg.

(** The four buckets of key-value operations. *)
Inductive Bucket := Reads | Writes | Deletes | Lists.

Definition Bucket_eqb (a b : Bucket) : bool :=
  match a, b with
  | Reads, Reads | Writes, Writes | Deletes, Deletes | Lists, Lists => true
  | _, _ => false
  end.

(** [label] contains [pat] up to letter case: some substring of [label]
    lower-cases to [pat] ([pat] is a lower-case literal). *)
Definition contains_ci (label pat : string) : Prop :=
  exists pre mid post,
    label = (pre ++ mid ++ post)%string /\ toLowerCase mid = pat.

(** The same test, decided. *)
Definition matches (label pat : string) : bool :=
  includes (toLowerCase label) pat.

(** The classification rule in its priority order; [None] is "dropped". *)
Definition bucket_of (label : string) : option Bucket :=
  if matches label "read" || matches label "get" then Some Reads
  else if matches label "write" || matches label "put" then Some Writes
  else if matches label "delete" then Some Deletes
  else if matches label "list" then Some Lists
  else None.

Definition assigned_to (b : Bucket) (op : KVOperationsGroup) : bool :=
  match bucket_of op.(kv_actionType) with
  | Some b' => Bucket_eqb b b'
  | None => false
  end.

(** The request total of the operations assigned to bucket [b]. *)
Definition bucket_total (b : Bucket) (ops : list KVOperationsGroup) : number :=
  total (map kv_requests (filter (assigned_to b) ops)).

(** The accumulator the code keeps for bucket [b]. *)
Definition accumulator (b : Bucket) (t : KVTotals) : number :=
  match b with
  | Reads => t.(reads)
  | Writes => t.(writes)
  | Deletes => t.(deletes)
  | Lists => t.(lists)
  end.

(** The metric named ["Storage"] of a product. *)
Definition storage_metric (p : ProductUsage) : option UsageMetric :=
  find (fun m => String.eqb m.(name) "Storage") p.(metrics).

(** A metric at rest: nothing used, nothing owed. *)
Definition zero_metric (m : UsageMetric) : Prop :=
  m.(current) == 0 /\ m.(percentage) == 0 /\ m.(overageCost) == 0.

(** A query answered successfully with no counter groups: no account
    element, a null group list, or an empty one. *)
Definition empty_reply {G} (r : Reply (Account G)) : Prop :=
  exists accounts,
    r = Payload accounts /\ groups_of {| accounts := accounts |} = [].

(** Every query of aggregator [s] is answered with no counter groups. *)
Definition empty_results (u : Upstream) (s : Slot) : Prop :=
  match s with
  | R2 => empty_reply u.(r2OperationsAdaptiveGroups) /\
          empty_reply u.(r2StorageAdaptiveGroups)
  | Workers => empty_reply u.(workersInvocationsAdaptive)
  | KV => empty_reply u.(kvOperationsAdaptiveGroups) /\
          empty_reply u.(kvStorageAdaptiveGroups)
  | D1 => empty_reply u.(d1AnalyticsAdaptiveGroups) /\
          empty_reply u.(d1StorageAdaptiveGroups)
  | Images => empty_reply u.(imagesRequestsAdaptiveGroups)
  | AI => empty_reply u.(aiInferenceAdaptiveGroups)
  | Vectorize => empty_reply u.(vectorizeV2QueriesAdaptiveGroups) /\
                 empty_reply u.(vectorizeV2StorageAdaptiveGroups)
  end.

(** Both credentials are configured. *)
Definition configured (e : Env) : Prop :=
  falsy e.(CLOUDFLARE_ACCOUNT_ID) = false /\
  falsy e.(CLOUDFLARE_API_TOKEN) = false.

End Spec.

(** ** Concrete inputs used to exercise the statements *)

Module Examples.

Definition env_ok : Env :=
  {| CLOUDFLARE_ACCOUNT_ID := Some "acc"; CLOUDFLARE_API_TOKEN := Some "tok" |}.

(** Every query answered with an empty account list. *)
Definition upstream_empty : Upstream := {|
  r2OperationsAdaptiveGroups := Payload [];
  r2StorageAdaptiveGroups := Payload [];
  workersInvocationsAdaptive := Payload [];
  kvOperationsAdaptiveGroups := Payload [];
  kvStorageAdaptiveGroups := Payload [];
  d1AnalyticsAdaptiveGroups := Payload [];
  d1StorageAdaptiveGroups := Payload [];
  imagesRequestsAdaptiveGroups := Payload [];
  aiInferenceAdaptiveGroups := Payload [];
  vectorizeV2QueriesAdaptiveGroups := Payload [];
  vectorizeV2StorageAdaptiveGroups := Payload []
|}.

(** Object storage times out, the database answers 503 and an error
    payload, Workers is over its request allowance. *)
Definition upstream_partial : Upstream := {|
  r2OperationsAdaptiveGroups := FetchRejected "timeout";
  r2StorageAdaptiveGroups := Payload [];
  workersInvocationsAdaptive :=
    Payload [Some [ {| wi_requests := 20000000; cpuTimeP50 := 1500 |} ]];
  kvOperationsAdaptiveGroups := Payload [None];
  kvStorageAdaptiveGroups := Payload [];
  d1AnalyticsAdaptiveGroups := HttpStatus 503 "Service Unavailable";
  d1StorageAdaptiveGroups := ErrorPayload "bad";
  imagesRequestsAdaptiveGroups := Payload [];
  aiInferenceAdaptiveGroups := Payload [];
  vectorizeV2QueriesAdaptiveGroups := Payload [];
  vectorizeV2StorageAdaptiveGroups := Payload []
|}.

(** 2024-03-15T12:00:00.000Z *)
Definition mid_march_2024 : Z := 1710504000000.

Definition world (u : Upstream) : World := {|
  env := env_ok;
  upstream := u;
  tza := 0;
  now := mid_march_2024;
  first_wins := fun _ => true;
  settle_time := fun s => match s with D1 => 1 | R2 => 2 | _ => 3 end%nat
|}.

End Examples.

(** ** Calendar notions used to state what the date helpers compute *)

Module Calendar.

Local Open Scope Z_scope.

(** The number of days of month [mn] (0-based) in year [y]. *)
Definition MonthLength (y mn : Z) : Z :=
  match mn with
  | 1 => 28 + leap y
  | 3 | 5 | 8 | 10 => 30
  | _ => 31
  end.

(** The month after month [mn] of year [y], as (year, month). *)
Definition next_month (y mn : Z) : Z * Z :=
  if mn =? 11 then (y + 1, 0) else (y, mn + 1).

(** The first and the last millisecond of month [mn] of year [y], UTC. *)
Definition month_first_ms (y mn : Z) : Z :=
  MakeDate (MakeDay y mn 1) 0.

Definition month_last_ms (y mn : Z) : Z :=
  MakeDate (MakeDay y mn (MonthLength y mn)) (msPerDay - 1).

End Calendar.
Import Calendar.

(** ** Further notions used to state what the aggregators compute *)

Module Derived.

(** Whether an R2 operation group belongs to class A, to class B. *)
Definition in_class_A (op : R2OperationsGroup) : bool :=
  array_includes R2_CLASS_A_OPERATIONS op.(r2_actionType).

Definition in_class_B (op : R2OperationsGroup) : bool :=
  array_includes R2_CLASS_B_OPERATIONS op.(r2_actionType).

(** The request total of the groups selected by [sel]. *)
Definition requests_of (sel : R2OperationsGroup -> bool)
    (ops : list R2OperationsGroup) : number :=
  Spec.total (map r2_requests (filter sel ops)).

(** The message [fetchGraphQL] throws for a reply, once both credentials
    are set; [None] for a payload. *)
Definition reply_error {T} (r : Reply T) : option string :=
  match r with
  | FetchRejected m => Some m
  | HttpStatus status responseText =>
      Some ("Cloudflare API error: " ++ NilZero.string_of_int (Z.to_int status)
            ++ " - " ++ slice0 200 responseText)
  | ParseFailure m => Some m
  | ErrorPayload m => Some ("GraphQL error: " ++ m)
  | Payload _ => None
  end.

(** The errors of the queries aggregator [s] sends, in the order it sends
    them. *)
Definition query_errors (u : Upstream) (s : Slot) : list (option string) :=
  match s with
  | R2 => [reply_error u.(r2OperationsAdaptiveGroups);
           reply_error u.(r2StorageAdaptiveGroups)]
  | Workers => [reply_error u.(workersInvocationsAdaptive)]
  | KV => [reply_error u.(kvOperationsAdaptiveGroups);
           reply_error u.(kvStorageAdaptiveGroups)]
  | D1 => [reply_error u.(d1AnalyticsAdaptiveGroups);
           reply_error u.(d1StorageAdaptiveGroups)]
  | Images => [reply_error u.(imagesRequestsAdaptiveGroups)]
  | AI => [reply_error u.(aiInferenceAdaptiveGroups)]
  | Vectorize => [reply_error u.(vectorizeV2QueriesAdaptiveGroups);
                  reply_error u.(vectorizeV2StorageAdaptiveGroups)]
  end.

(** The error the aggregator reports among those of its queries: the only
    one, or of two the one that settles first. *)
Definition first_error (first_wins : bool) (errs : list (option string))
    : option string :=
  match errs with
  | [e] => e
  | [Some a; Some b] => Some (if first_wins then a else b)
  | [Some a; None] => Some a
  | [None; Some b] => Some b
  | _ => None
  end.

(** The counter groups a reply delivers; none when it is not a payload. *)
Definition payload_groups {G} (r : Reply (Account G)) : list G :=
  match r with
  | Payload accounts => groups_of {| accounts := accounts |}
  | _ => []
  end.

(** The product usage aggregator [s] computes from the replies. *)
Definition usage_of (s : Slot) (w : World) : ProductUsage :=
  let u := w.(upstream) in
  match s with
  | R2 => r2Usage (payload_groups u.(r2OperationsAdaptiveGroups))
            (payload_groups u.(r2StorageAdaptiveGroups))
  | Workers => workersUsage (payload_groups u.(workersInvocationsAdaptive))
  | KV => kvUsage (payload_groups u.(kvOperationsAdaptiveGroups))
            (payload_groups u.(kvStorageAdaptiveGroups))
  | D1 => d1Usage (payload_groups u.(d1AnalyticsAdaptiveGroups))
            (payload_groups u.(d1StorageAdaptiveGroups))
  | Images => imagesUsage (payload_groups u.(imagesRequestsAdaptiveGroups))
  | AI => workersAIUsage w.(tza) w.(now)
            (payload_groups u.(aiInferenceAdaptiveGroups))
  | Vectorize =>
      vectorizeUsage (payload_groups u.(vectorizeV2QueriesAdaptiveGroups))
        (payload_groups u.(vectorizeV2StorageAdaptiveGroups))
  end.

(** The message of [fetchGraphQL] when a credential is missing. *)
Definition dev_vars_missing : string :=
  "Missing CLOUDFLARE_ACCOUNT_ID or CLOUDFLARE_API_TOKEN in .dev.vars".

(** The outcome of aggregator [s], case by case: no account id, no API
    token, a failing query, or the computed usage. *)
Definition outcome_of (s : Slot) (w : World)
    : Completion (option ProductUsage) :=
  if falsy w.(env).(CLOUDFLARE_ACCOUNT_ID) then
    Throw "Missing CLOUDFLARE_ACCOUNT_ID"
  else if falsy w.(env).(CLOUDFLARE_API_TOKEN) then
    Throw dev_vars_missing
  else
    match first_error (w.(first_wins) s) (query_errors w.(upstream) s) with
    | Some e => Throw e
    | None => Normal (Some (usage_of s w))
    end.

(** How many metrics each product reports. *)
Definition metric_count (s : Slot) : nat :=
  match s with
  | R2 => 3 | Workers => 2 | KV => 5 | D1 => 3
  | Images => 1 | AI => 1 | Vectorize => 2
  end%nat.

(** The percentage rule of the data model. *)
Definition percentage_rule (m : UsageMetric) : Prop :=
  (0 < m.(limit) -> m.(percentage) == m.(current) / m.(limit) * 100) /\
  (m.(limit) <= 0 -> m.(percentage) == 0).

(** A metric with a free allowance: it costs nothing up to the limit and
    something above it. *)
Definition allowance_metric (m : UsageMetric) : Prop :=
  0 < m.(limit) /\
  0 <= m.(overageCost) /\
  (0 < m.(overageCost) <-> m.(limit) < m.(current)) /\
  (0 < m.(overageCost) <-> 100 < m.(percentage)).

(** Every image counter the upstream delivers is non-negative. *)
Definition images_nonneg (u : Upstream) : Prop :=
  forall accounts g,
    u.(imagesRequestsAdaptiveGroups) = Payload accounts ->
    In g (groups_of {| accounts := accounts |}) ->
    0 <= (g.(img_requests) ?? 0)%js.

(** The number of [null] product slots of a summary. *)
Definition null_slots (d : CloudflareUsageData) : nat :=
  List.length (filter (fun s => match slot d s with None => true | Some _ => false end)
            all_slots).

End Derived.


(** ** [api.ts]: the account-id server function *)

Module ApiMore.

(** [$getAccountId]: [try { return getAccountId() } catch { return null }] *)
Definition server_getAccountId (env : Env) : Completion (option string) :=
  match getAccountId env with
  | Normal id => Normal (Some id)
  | Throw _ => Normal None
  end.

(** [$queryCloudflareGraphQL]: [fetchGraphQL(query)] *)
Definition queryCloudflareGraphQL {T} (env : Env) (reply : Reply T)
    : Completion (GraphQLResponse T) :=
  fetchGraphQL env reply.

End ApiMore.
Import ApiMore.

(** ** The dashboard components: the values they compute from a summary

    Markup, class names other than the progress colour, and number and
    currency formatting are not modelled. *)

Module UI.

(** [x >= y] and [x > y] on numbers *)
Definition ge (x y : number) : bool := Qle_bool y x.
Definition gt (x y : number) : bool := negb (Qle_bool x y).
Definition lt (x y : number) : bool := negb (Qle_bool y x).

(** [Math.min(a, b)] *)
Definition Math_min (a b : number) : number := Qmin a b.

(** *** [usage-card.tsx] *)

Definition getProgressColor (percentage : number) : string :=
  if ge percentage 100 then "bg-red-500"
  else if ge percentage 80 then "bg-amber-500"
  else if ge percentage 50 then "bg-yellow-500"
  else "bg-emerald-500".

(** What [MetricRow] derives from a metric: the progress bar (colour class
    and width in percent) when the metric has a limit, whether the "used"
    text is red, whether "Pay per use" replaces it, and whether the overage
    amount is shown. *)
Record MetricRowView := {
  bar : option (string * number);
  usedIsRed : bool;
  payPerUse : bool;
  overageShown : bool
}.

Definition MetricRow (metric : UsageMetric) : MetricRowView :=
  let percentage := Math_min metric.(Types.percentage) 100 in
  let isOverLimit := gt metric.(Types.percentage) 100 in
  let hasLimit := gt metric.(limit) 0 in
  {| bar := if hasLimit
            then Some (getProgressColor metric.(Types.percentage), percentage)
            else None;
     usedIsRed := hasLimit && isOverLimit;
     payPerUse := negb hasLimit;
     overageShown := gt metric.(overageCost) 0 |}.

(** What [UsageCard] derives from a product: title, whether the header
    shows an overage amount, the count in "N metrics tracked", the rows. *)
Record UsageCardView := {
  title : string;
  headerOverage : bool;
  tracked : nat;
  rows : list MetricRowView
}.

Definition UsageCard (usage : ProductUsage) : UsageCardView :=
  let hasOverage := gt usage.(totalOverageCost) 0 in
  {| title := usage.(product);
     headerOverage := hasOverage;
     tracked := List.length usage.(metrics);
     rows := map MetricRow usage.(metrics) |}.

(** *** [cost-summary.tsx] *)

(** What [CostSummary] derives from a summary: the base fee line, the three
    overage lines (shown when positive), the total it prints and the amount
    of its "Includes ... in overage charges" note (shown when positive). *)
Record CostSummaryView := {
  baseLine : number;
  r2Line : option number;
  workersLine : option number;
  kvLine : option number;
  totalLine : number;
  includesNote : option number
}.

Definition shown_if_positive (x : number) : option number :=
  if gt x 0 then Some x else None.

Definition CostSummary (data : CloudflareUsageData) : CostSummaryView :=
  let baseCost := WORKERS_PAID_LIMITS.baseCost in
  let r2Overage := (optchain data.(r2) totalOverageCost ?? 0)%js in
  let workersOverage := (optchain data.(workers) totalOverageCost ?? 0)%js in
  let kvOverage := (optchain data.(kv) totalOverageCost ?? 0)%js in
  let totalOverage := r2Overage + workersOverage + kvOverage in
  {| baseLine := baseCost;
     r2Line := shown_if_positive r2Overage;
     workersLine := shown_if_positive workersOverage;
     kvLine := shown_if_positive kvOverage;
     totalLine := data.(totalEstimatedCost);
     includesNote := shown_if_positive totalOverage |}.

(** *** [routes/index.tsx] *)

(** [data.x?.metrics ?? []] *)
Definition metrics_or_empty (p : option ProductUsage) : list UsageMetric :=
  (optchain p metrics ?? [])%js.

Definition allMetrics (data : CloudflareUsageData) : list UsageMetric :=
  (metrics_or_empty data.(workers) ++ metrics_or_empty data.(r2) ++
   metrics_or_empty data.(kv) ++ metrics_or_empty data.(d1) ++
   metrics_or_empty data.(images) ++ metrics_or_empty data.(ai) ++
   metrics_or_empty data.(vectorize))%list.

(** [QuickStats]: the metrics at risk and the metrics over their limit. *)
Definition atRisk (data : CloudflareUsageData) : list UsageMetric :=
  filter (fun m => ge m.(percentage) 80 && lt m.(percentage) 100)
    (allMetrics data).

Definition overLimit (data : CloudflareUsageData) : list UsageMetric :=
  filter (fun m => ge m.(percentage) 100) (allMetrics data).

(** What [Dashboard] shows for a loaded summary: the error banner, the
    cards of the products present (in display order), and the "No usage
    data available" message. *)
Record DashboardView := {
  errorBanner : option (list ServiceError);
  cards : list UsageCardView;
  emptyState : bool
}.

Definition card_of (p : option ProductUsage) : list UsageCardView :=
  match p with
  | Some usage => [UsageCard usage]
  | None => []
  end.

Definition is_null (p : option ProductUsage) : bool :=
  match p with
  | Some _ => false
  | None => true
  end.

Definition Dashboard (data : CloudflareUsageData) : DashboardView :=
  {| errorBanner :=
       if (0 <? List.length data.(errors))%nat then Some data.(errors) else None;
     cards :=
       (card_of data.(workers) ++ card_of data.(r2) ++ card_of data.(kv) ++
        card_of data.(d1) ++ card_of data.(images) ++ card_of data.(ai) ++
        card_of data.(vectorize))%list;
     emptyState :=
       is_null data.(workers) && is_null data.(r2) && is_null data.(kv) &&
       is_null data.(d1) && is_null data.(images) && is_null data.(ai) &&
       is_null data.(vectorize) && (List.length data.(errors) =? 0)%nat |}.

End UI.


(** * Properties *)

(** ** Overage calculators *)

Section Calculators.

Lemma Math_max_0_within (x : number) : x <= 0 -> Math_max 0 x == 0.
Proof. intros H. unfold Math_max. now apply Q.max_l. Qed.

Lemma Math_max_0_over (x : number) : 0 <= x -> Math_max 0 x == x.
Proof. intros H. unfold Math_max. now apply Q.max_r. Qed.

Lemma Math_max_0_nonneg (x : number) : 0 <= Math_max 0 x.
Proof. unfold Math_max. apply Q.le_max_l. Qed.

Lemma per_unit_nonneg (x u r : number) :
  0 <= x -> 0 < u -> 0 <= r -> 0 <= (x / u) * r.
Proof.
  intros Hx Hu Hr. apply Qmult_le_0_compat; [|exact Hr].
  unfold Qdiv. apply Qmult_le_0_compat; [exact Hx|].
  apply Qlt_le_weak, Qinv_lt_0_compat, Hu.
Qed.

Lemma calculateOverage_within (c l r : number) :
  c <= l -> calculateOverage c l r == 0.
Proof.
  intros H. unfold calculateOverage; cbv zeta.
  rewrite Math_max_0_within by lra. field.
Qed.

Lemma calculateStorageOverage_within (c l r : number) :
  c <= l -> calculateStorageOverage c l r == 0.
Proof.
  intros H. unfold calculateStorageOverage; cbv zeta.
  rewrite Math_max_0_within by lra. ring.
Qed.

Lemma calculatePer1KCost_within (c l r : number) :
  c <= l -> calculatePer1KCost c l r == 0.
Proof.
  intros H. unfold calculatePer1KCost; cbv zeta.
  rewrite Math_max_0_within by lra. field.
Qed.

End Calculators.

(** C3.  For non-negative [current], [limit] and [rate], each calculator is
    its formula: the part of [current] above [limit] (none for the flat
    per-100K rule), divided by the unit size, times the rate.  Each result is
    non-negative, and the three limit-based results are 0 whenever
    [current <= limit]. *)
Theorem overage_calculators_formulas (current limit rate : number) :
  0 <= current -> 0 <= limit -> 0 <= rate ->
  (calculateOverage current limit rate
     == Qmax 0 (current - limit) / 1000000 * rate /\
   calculateStorageOverage current limit rate
     == Qmax 0 (current - limit) * rate /\
   calculatePer1KCost current limit rate
     == Qmax 0 (current - limit) / 1000 * rate /\
   calculatePer100KCost current rate == current / 100000 * rate) /\
  (0 <= calculateOverage current limit rate /\
   0 <= calculateStorageOverage current limit rate /\
   0 <= calculatePer1KCost current limit rate /\
   0 <= calculatePer100KCost current rate) /\
  (current <= limit ->
   calculateOverage current limit rate == 0 /\
   calculateStorageOverage current limit rate == 0 /\
   calculatePer1KCost current limit rate == 0) /\
  (limit <= current ->
   calculateOverage current limit rate == (current - limit) / 1000000 * rate /\
   calculateStorageOverage current limit rate == (current - limit) * rate /\
   calculatePer1KCost current limit rate == (current - limit) / 1000 * rate).
Proof.
  intros Hc Hl Hr. split; [|split; [|split]].
  - repeat split; reflexivity.
  - repeat split.
    + apply per_unit_nonneg; [apply Math_max_0_nonneg|reflexivity|exact Hr].
    + apply Qmult_le_0_compat; [apply Math_max_0_nonneg|exact Hr].
    + apply per_unit_nonneg; [apply Math_max_0_nonneg|reflexivity|exact Hr].
    + apply per_unit_nonneg; [exact Hc|reflexivity|exact Hr].
  - intros H. repeat split.
    + now apply calculateOverage_within.
    + now apply calculateStorageOverage_within.
    + now apply calculatePer1KCost_within.
  - intros H.
    unfold calculateOverage, calculateStorageOverage, calculatePer1KCost;
      cbv zeta.
    rewrite Math_max_0_over by lra. repeat split; reflexivity.
Qed.

Lemma overage_calculators_formulas_witness :
  (calculateOverage 12000000 10000000 0.5
     == Qmax 0 (12000000 - 10000000) / 1000000 * 0.5 /\
   calculateStorageOverage 12000000 10000000 0.5
     == Qmax 0 (12000000 - 10000000) * 0.5 /\
   calculatePer1KCost 12000000 10000000 0.5
     == Qmax 0 (12000000 - 10000000) / 1000 * 0.5 /\
   calculatePer100KCost 12000000 0.5 == 12000000 / 100000 * 0.5) /\
  (0 <= calculateOverage 12000000 10000000 0.5 /\
   0 <= calculateStorageOverage 12000000 10000000 0.5 /\
   0 <= calculatePer1KCost 12000000 10000000 0.5 /\
   0 <= calculatePer100KCost 12000000 0.5) /\
  (12000000 <= 10000000 ->
   calculateOverage 12000000 10000000 0.5 == 0 /\
   calculateStorageOverage 12000000 10000000 0.5 == 0 /\
   calculatePer1KCost 12000000 10000000 0.5 == 0) /\
  (10000000 <= 12000000 ->
   calculateOverage 12000000 10000000 0.5
     == (12000000 - 10000000) / 1000000 * 0.5 /\
   calculateStorageOverage 12000000 10000000 0.5
     == (12000000 - 10000000) * 0.5 /\
   calculatePer1KCost 12000000 10000000 0.5
     == (12000000 - 10000000) / 1000 * 0.5).
Proof.
  apply (overage_calculators_formulas 12000000 10000000 0.5); discriminate.
Defined.

(** ** Metric and product builders *)

Lemma gt0_true (x : number) : 0 < x -> gt0 x = true.
Proof.
  intros H. unfold gt0. destruct (Qle_bool x 0) eqn:E; [|reflexivity].
  apply Qle_bool_iff in E. lra.
Qed.

Lemma gt0_false (x : number) : x <= 0 -> gt0 x = false.
Proof.
  intros H. unfold gt0. apply Qle_bool_iff in H. now rewrite H.
Qed.

(** C4.  For a metric input with [current >= 0], [buildMetric] reports
    [current / limit * 100] as percentage when [limit > 0] and 0 when
    [limit <= 0], whatever [current] is; name, current, limit, unit,
    overage cost and rate label pass through unchanged. *)
Theorem buildMetric_percentage (input : MetricInput) (cost : number) :
  0 <= input.(mi_current) ->
  let m := buildMetric input cost in
  (0 < input.(mi_limit) ->
     m.(percentage) = input.(mi_current) / input.(mi_limit) * 100) /\
  (input.(mi_limit) <= 0 -> m.(percentage) = 0) /\
  m.(name) = input.(mi_name) /\
  m.(current) = input.(mi_current) /\
  m.(limit) = input.(mi_limit) /\
  m.(unit_) = input.(mi_unit) /\
  m.(overageCost) = cost /\
  m.(rate) = Some input.(mi_rate).
Proof.
  intros _ m. subst m. destruct input as [n c l u r]; cbn.
  split; [|split].
  - intros H. now rewrite gt0_true.
  - intros H. now rewrite gt0_false.
  - repeat split.
Qed.

Lemma buildMetric_percentage_witness :
  let input := {| mi_name := "Reads"; mi_current := 12000000;
                  mi_limit := 10000000; mi_unit := "requests";
                  mi_rate := "$0.50/1M reads" |} in
  let m := buildMetric input 1 in
  (0 < input.(mi_limit) ->
     m.(percentage) = input.(mi_current) / input.(mi_limit) * 100) /\
  (input.(mi_limit) <= 0 -> m.(percentage) = 0) /\
  m.(name) = input.(mi_name) /\
  m.(current) = input.(mi_current) /\
  m.(limit) = input.(mi_limit) /\
  m.(unit_) = input.(mi_unit) /\
  m.(overageCost) = 1 /\
  m.(rate) = Some input.(mi_rate).
Proof.
  intros input.
  apply (buildMetric_percentage input 1). discriminate.
Defined.

Lemma reduce_sum_from {A} (f : A -> number) (xs : list A) (acc : number) :
  reduce (fun sum x => sum + f x) acc xs == acc + Spec.total (map f xs).
Proof.
  unfold reduce. revert acc.
  induction xs as [|x xs IH]; intros acc; cbn [fold_left map Spec.total].
  - ring.
  - rewrite IH. ring.
Qed.

Lemma reduce_sum {A} (f : A -> number) (xs : list A) :
  reduce (fun sum x => sum + f x) 0 xs == Spec.total (map f xs).
Proof. rewrite reduce_sum_from. ring. Qed.

Lemma total_app (xs ys : list number) :
  Spec.total (xs ++ ys) == Spec.total xs + Spec.total ys.
Proof.
  induction xs as [|x xs IH]; cbn [app Spec.total].
  - ring.
  - rewrite IH. ring.
Qed.

Lemma total_Permutation (xs ys : list number) :
  Permutation xs ys -> Spec.total xs == Spec.total ys.
Proof.
  induction 1 as [|x l l' _ IH|x y l|l l' l'' _ IH1 _ IH2];
    cbn [Spec.total].
  - reflexivity.
  - now rewrite IH.
  - ring.
  - now rewrite IH1.
Qed.

(** C5.  [buildProductUsage] keeps the product name and the metric list as
    given, and its [totalOverageCost] is the sum of the metrics'
    [overageCost]: the left-to-right accumulation of the code equals the sum
    taken in any order. *)
Theorem buildProductUsage_total (product : string) (metrics : list UsageMetric) :
  let p := buildProductUsage product metrics in
  p.(Types.product) = product /\
  p.(Types.metrics) = metrics /\
  p.(totalOverageCost)
    = fold_left (fun sum m => sum + m.(overageCost)) metrics 0 /\
  p.(totalOverageCost) == Spec.total (map overageCost metrics) /\
  (forall reordered, Permutation metrics reordered ->
     p.(totalOverageCost) == Spec.total (map overageCost reordered)).
Proof.
  cbn. repeat split.
  - apply reduce_sum.
  - intros reordered HP. rewrite reduce_sum.
    apply total_Permutation. now apply Permutation_map.
Qed.

(** ** Inputs outside the calculators' contract *)

Lemma sumField_total {T} (items : list T) (getter : T -> option number) :
  sumField items getter
    == Spec.total (map (fun item => (getter item ?? 0)%js) items).
Proof. unfold sumField. apply reduce_sum. Qed.

Lemma total_zeros {T} (items : list T) :
  Spec.total (map (fun _ : T => 0) items) == 0.
Proof.
  induction items as [|x xs IH]; cbn [map Spec.total].
  - reflexivity.
  - rewrite IH. ring.
Qed.

(** C9, as stated, fails: a negative [current] (or [limit]) is not rejected.
    The limit-based calculators clamp it away and answer 0; the flat
    per-100K calculator answers a negative cost. *)
Lemma negative_inputs_not_rejected :
  call_calculateOverage (-5) 0 1 = Normal (calculateOverage (-5) 0 1) /\
  calculateOverage (-5) 0 1 == 0 /\
  ~ Spec.rejects (call_calculateOverage (-5) 0 1) /\
  ~ Spec.rejects (call_calculateStorageOverage 3 (-2) 1) /\
  calculateStorageOverage 3 (-2) 1 == 5 /\
  ~ Spec.rejects (call_calculatePer1KCost (-5) (-7) 1) /\
  ~ Spec.rejects (call_calculatePer100KCost (-100000) 1) /\
  calculatePer100KCost (-100000) 1 == -1.
Proof.
  repeat match goal with |- _ /\ _ => split end;
    try reflexivity; intros [msg H]; discriminate H.
Qed.

(** C9, amended.  None of the four calculators ever raises, whatever the
    sign of its inputs: each call completes with the value of its formula.
    Negative inputs are therefore computed on, not rejected; the limit-based
    calculators still answer 0 whenever [current <= limit].  Zero usage costs
    nothing under a non-negative limit, and a counter absent from a group
    counts as 0 in [sumField]. *)
Theorem calculators_never_raise (current limit rate : number) :
  (call_calculateOverage current limit rate
     = Normal (calculateOverage current limit rate) /\
   call_calculateStorageOverage current limit rate
     = Normal (calculateStorageOverage current limit rate) /\
   call_calculatePer1KCost current limit rate
     = Normal (calculatePer1KCost current limit rate) /\
   call_calculatePer100KCost current rate
     = Normal (calculatePer100KCost current rate)) /\
  (~ Spec.rejects (call_calculateOverage current limit rate) /\
   ~ Spec.rejects (call_calculateStorageOverage current limit rate) /\
   ~ Spec.rejects (call_calculatePer1KCost current limit rate) /\
   ~ Spec.rejects (call_calculatePer100KCost current rate)) /\
  (current <= limit ->
   calculateOverage current limit rate == 0 /\
   calculateStorageOverage current limit rate == 0 /\
   calculatePer1KCost current limit rate == 0) /\
  (0 <= limit ->
   calculateOverage 0 limit rate == 0 /\
   calculateStorageOverage 0 limit rate == 0 /\
   calculatePer1KCost 0 limit rate == 0) /\
  calculatePer100KCost 0 rate == 0 /\
  (forall (T : Type) (items : list T),
     sumField items (fun _ => None) == 0) /\
  (forall (T : Type) (items : list T) (getter : T -> option number),
     sumField items getter
       == Spec.total (map (fun item => (getter item ?? 0)%js) items)).
Proof.
  split; [repeat split|].
  split; [repeat split; intros [msg H]; discriminate H|].
  split; [|split; [|split; [|split]]].
  - intros H. repeat split.
    + now apply calculateOverage_within.
    + now apply calculateStorageOverage_within.
    + now apply calculatePer1KCost_within.
  - intros H. repeat split.
    + now apply calculateOverage_within.
    + now apply calculateStorageOverage_within.
    + now apply calculatePer1KCost_within.
  - unfold calculatePer100KCost. field.
  - intros T items. rewrite sumField_total. cbn [nullish].
    apply total_zeros.
  - intros T items getter. apply sumField_total.
Qed.

(** ** Classification of key-value operations *)

Section KVClassification.

Local Open Scope string_scope.

Lemma append_assoc (a b c : string) : (a ++ b) ++ c = a ++ (b ++ c).
Proof. induction a as [|x a IH]; cbn; [reflexivity|now rewrite IH]. Qed.

Lemma toLowerCase_app (a b : string) :
  toLowerCase (a ++ b) = toLowerCase a ++ toLowerCase b.
Proof. induction a as [|x a IH]; cbn; [reflexivity|now rewrite IH]. Qed.

(** A lower-cased string splits where its source splits. *)
Lemma toLowerCase_split (s a b : string) :
  toLowerCase s = a ++ b ->
  exists a' b', s = a' ++ b' /\ toLowerCase a' = a /\ toLowerCase b' = b.
Proof.
  revert s. induction a as [|x a IH]; intros s H.
  - exists "", s. repeat split. exact H.
  - destruct s as [|y s]; cbn in H; [discriminate|].
    injection H as Hx Hs. destruct (IH s Hs) as (a' & b' & -> & Ha & Hb).
    exists (String y a'), b'. cbn. now rewrite Hx, Ha, Hb.
Qed.

Lemma prefix_spec (p s : string) :
  String.prefix p s = true <-> exists post, s = p ++ post.
Proof.
  revert s. induction p as [|x p IH]; intros s.
  - destruct s; cbn; (split; [intros _; eexists; reflexivity|reflexivity]).
  - destruct s as [|y s]; cbn.
    + split; [discriminate|intros [post H]; discriminate H].
    + destruct (ascii_dec x y) as [->|Hne].
      * rewrite IH. split; intros [post H]; exists post.
        -- now rewrite H.
        -- now injection H.
      * split; [discriminate|].
        intros [post H]. injection H as H1 _. now elim Hne.
Qed.

Lemma includes_spec (s p : string) :
  includes s p = true <-> exists pre post, s = pre ++ p ++ post.
Proof.
  induction s as [|y s IH].
  - cbn [includes]. rewrite orb_false_r, prefix_spec. split.
    + intros [post H]. now exists "", post.
    + intros (pre & post & H). destruct pre; [now exists post|discriminate].
  - cbn [includes]. rewrite orb_true_iff, prefix_spec, IH. split.
    + intros [[post H]|(pre & post & H)].
      * now exists "", post.
      * exists (String y pre), post. cbn. now rewrite H.
    + intros (pre & post & H). destruct pre as [|z pre].
      * left. now exists post.
      * right. exists pre, post. cbn in H. now injection H.
Qed.

Lemma matches_spec (label pat : string) :
  Spec.matches label pat = true <-> Spec.contains_ci label pat.
Proof.
  unfold Spec.matches, Spec.contains_ci. rewrite includes_spec. split.
  - intros (pre & post & H).
    apply toLowerCase_split in H. destruct H as (pre' & rest & -> & _ & H).
    apply toLowerCase_split in H. destruct H as (mid & post' & -> & H & _).
    now exists pre', mid, post'.
  - intros (pre & mid & post & -> & H).
    exists (toLowerCase pre), (toLowerCase post).
    now rewrite !toLowerCase_app, H.
Qed.

Lemma kv_step_accumulator (t : KVTotals) (op : KVOperationsGroup)
    (b : Spec.Bucket) :
  Spec.accumulator b (kv_step t op)
  = if Spec.assigned_to b op
    then Spec.accumulator b t + op.(kv_requests)
    else Spec.accumulator b t.
Proof.
  unfold kv_step, Spec.assigned_to, Spec.bucket_of, Spec.matches.
  destruct t as [r w d l].
  destruct (includes (toLowerCase (kv_actionType op)) "read");
    destruct (includes (toLowerCase (kv_actionType op)) "get");
    destruct (includes (toLowerCase (kv_actionType op)) "write");
    destruct (includes (toLowerCase (kv_actionType op)) "put");
    destruct (includes (toLowerCase (kv_actionType op)) "delete");
    destruct (includes (toLowerCase (kv_actionType op)) "list");
    destruct b; reflexivity.
Qed.

Lemma kv_fold_accumulator (ops : list KVOperationsGroup) (t : KVTotals)
    (b : Spec.Bucket) :
  Spec.accumulator b (fold_left kv_step ops t)
  == Spec.accumulator b t + Spec.bucket_total b ops.
Proof.
  revert t. induction ops as [|op ops IH]; intros t.
  - unfold Spec.bucket_total. cbn. ring.
  - cbn [fold_left]. rewrite IH, kv_step_accumulator.
    unfold Spec.bucket_total. cbn [filter].
    destruct (Spec.assigned_to b op); cbn [map Spec.total]; ring.
Qed.

End KVClassification.

(** C6.  The key-value loop adds each operation's request count to exactly
    the bucket the priority rule names for its label (reads for "read" or
    "get", else writes for "write" or "put", else deletes for "delete", else
    lists for "list", matching substrings without regard to letter case) and
    to no bucket when none matches; each bucket's total is the sum of the
    request counts assigned to it. *)
Theorem kv_operations_bucketed (operations : list KVOperationsGroup) :
  (forall label pat,
     Spec.matches label pat = true <-> Spec.contains_ci label pat) /\
  (forall t op b,
     Spec.accumulator b (kv_step t op)
     = if Spec.assigned_to b op
       then Spec.accumulator b t + op.(kv_requests)
       else Spec.accumulator b t) /\
  (forall op b1 b2,
     Spec.assigned_to b1 op = true -> Spec.assigned_to b2 op = true ->
     b1 = b2) /\
  (forall t op, Spec.bucket_of op.(kv_actionType) = None -> kv_step t op = t) /\
  (forall b,
     Spec.accumulator b (kv_totals operations)
     == Spec.bucket_total b operations).
Proof.
  split; [exact matches_spec|].
  split; [exact kv_step_accumulator|].
  split; [|split].
  - intros op b1 b2. unfold Spec.assigned_to.
    destruct (Spec.bucket_of (kv_actionType op)) as [b|]; [|discriminate].
    destruct b, b1, b2; cbn; congruence.
  - intros t op. unfold Spec.bucket_of, Spec.matches, kv_step.
    destruct t as [r w d l].
    destruct (includes (toLowerCase (kv_actionType op)) "read");
      destruct (includes (toLowerCase (kv_actionType op)) "get");
      destruct (includes (toLowerCase (kv_actionType op)) "write");
      destruct (includes (toLowerCase (kv_actionType op)) "put");
      destruct (includes (toLowerCase (kv_actionType op)) "delete");
      destruct (includes (toLowerCase (kv_actionType op)) "list");
      cbn; congruence.
  - intros b. unfold kv_totals. rewrite kv_fold_accumulator.
    destruct b; cbn [Spec.accumulator reads writes deletes lists]; ring.
Qed.

Example kv_operations_bucketed_sample :
  let ops := [ {| kv_actionType := "ReadKey"; kv_requests := 12000000 |};
               {| kv_actionType := "LISTkeys"; kv_requests := 7 |};
               {| kv_actionType := "DeleteOutput"; kv_requests := 3 |};
               {| kv_actionType := "purge"; kv_requests := 9 |} ] in
  map (fun op => Spec.bucket_of op.(kv_actionType)) ops
    = [Some Spec.Reads; Some Spec.Lists; Some Spec.Writes; None] /\
  (kv_totals ops).(reads) == 12000000 /\
  (kv_totals ops).(writes) == 3 /\
  (kv_totals ops).(deletes) == 0 /\
  (kv_totals ops).(lists) == 7.
Proof. cbv zeta. repeat split. Qed.

(** ** Storage metrics of R2 and Workers KV *)

Lemma bytesToGB_0 : bytesToGB 0 == 0.
Proof. reflexivity. Qed.

(** C10.  The storage metric of R2 and of Workers KV reads only the first
    storage group: its current value is [payloadSize] (R2) or [byteCount]
    (KV) of that group converted to GB; further groups and the fields
    [metadataSize], [objectCount] and [keyCount] do not influence the
    result, and with no storage group the metric reads 0 GB. *)
Theorem storage_metric_from_first_group :
  (forall ops size meta count rest,
     exists sm,
       Spec.storage_metric
         (r2Usage ops ({| payloadSize := size; metadataSize := meta;
                          objectCount := count |} :: rest)) = Some sm /\
       sm.(current) = bytesToGB (size ?? 0)%js) /\
  (forall ops size meta count rest meta' count' rest',
     r2Usage ops ({| payloadSize := size; metadataSize := meta;
                     objectCount := count |} :: rest)
     = r2Usage ops ({| payloadSize := size; metadataSize := meta';
                       objectCount := count' |} :: rest')) /\
  (forall ops,
     exists sm,
       Spec.storage_metric (r2Usage ops []) = Some sm /\ sm.(current) == 0) /\
  (forall ops size keys rest,
     exists sm,
       Spec.storage_metric
         (kvUsage ops ({| byteCount := size; keyCount := keys |} :: rest))
         = Some sm /\
       sm.(current) = bytesToGB (size ?? 0)%js) /\
  (forall ops size keys rest keys' rest',
     kvUsage ops ({| byteCount := size; keyCount := keys |} :: rest)
     = kvUsage ops ({| byteCount := size; keyCount := keys' |} :: rest')) /\
  (forall ops,
     exists sm,
       Spec.storage_metric (kvUsage ops []) = Some sm /\ sm.(current) == 0).
Proof.
  repeat match goal with |- _ /\ _ => split end.
  - intros. unfold r2Usage.
    destruct (fold_left r2_step ops (0, 0)) as [a b].
    eexists. split; reflexivity.
  - intros. reflexivity.
  - intros. unfold r2Usage.
    destruct (fold_left r2_step ops (0, 0)) as [a b].
    eexists. split; [reflexivity|]. apply bytesToGB_0.
  - intros. unfold kvUsage.
    destruct (kv_totals ops) as [r w d l].
    eexists. split; reflexivity.
  - intros. reflexivity.
  - intros. unfold kvUsage.
    destruct (kv_totals ops) as [r w d l].
    eexists. split; [reflexivity|]. apply bytesToGB_0.
Qed.

Example storage_metric_sample :
  let storage := [ {| payloadSize := Some 16106127360; metadataSize := 7;
                      objectCount := 3 |};
                   {| payloadSize := Some 99999999999; metadataSize := 0;
                      objectCount := 0 |} ] in
  option_map (fun m => Qred m.(current))
    (Spec.storage_metric (r2Usage [] storage)) = Some 15 /\
  (r2Usage [] storage).(totalOverageCost) == 0.075.
Proof. cbv zeta. split; [vm_compute; reflexivity|reflexivity]. Qed.

(** ** Calendar facts *)

Section Calendar.

Local Open Scope Z_scope.

(** [YearFromDay d] is the year whose first day is the last one not after
    [d]. *)
Lemma YearFromDay_spec (d : Z) :
  DayFromYear (YearFromDay d) <= d < DayFromYear (YearFromDay d + 1).
Proof.
  unfold YearFromDay; cbv zeta.
  destruct (Z.leb_spec (DayFromYear (1970 + 400 * d / 146097 + 1)) d) as [H1|H1].
  - split; [exact H1|]. unfold DayFromYear in *.
    Z.div_mod_to_equations. lia.
  - destruct (Z.leb_spec (DayFromYear (1970 + 400 * d / 146097)) d) as [H2|H2].
    + split; assumption.
    + replace (1970 + 400 * d / 146097 - 1 + 1)
        with (1970 + 400 * d / 146097) by lia.
      split; [|exact H2]. unfold DayFromYear in *.
      Z.div_mod_to_equations. lia.
Qed.

Lemma DayWithinYear_nonneg (t : Z) : 0 <= DayWithinYear t.
Proof.
  unfold DayWithinYear, YearFromTime.
  pose proof (YearFromDay_spec (Day t)). lia.
Qed.

Lemma leap_01 (y : Z) : leap y = 0 \/ leap y = 1.
Proof. unfold leap. destruct (DaysInYear y =? 366); auto. Qed.

Lemma DateFromTime_pos (t : Z) : 1 <= DateFromTime t.
Proof.
  pose proof (DayWithinYear_nonneg t) as Hd.
  unfold DateFromTime, MonthFromTime, InLeapYear; cbv zeta.
  destruct (leap_01 (YearFromTime t)) as [-> | ->];
    repeat match goal with
    | |- context [?a <? ?b] => destruct (Z.ltb_spec a b)
    end; lia.
Qed.

Lemma daysInMonth_pos (tza now : Z) : 1 <= daysInMonth tza now.
Proof. unfold daysInMonth, getDate. apply DateFromTime_pos. Qed.

(** The date model on known instants: the epoch, the millisecond before
    it, a leap day, local midnight two hours east of UTC, and the lengths of
    February 2023, 1900 and 2000. *)
Example date_model_samples :
  toISOString 0 = "1970-01-01T00:00:00.000Z"%string /\
  toISOString (-1) = "1969-12-31T23:59:59.999Z"%string /\
  toISOString 951782400000 = "2000-02-29T00:00:00.000Z"%string /\
  toISOString Examples.mid_march_2024 = "2024-03-15T12:00:00.000Z"%string /\
  toISOString (newDate 7200000 2024 2 1) = "2024-02-29T22:00:00.000Z"%string /\
  toISOString (newDate 0 2024 12 0) = "2024-12-31T00:00:00.000Z"%string /\
  daysInMonth 0 (newDate 0 2023 1 10) = 28 /\
  daysInMonth 0 (newDate 0 1900 1 10) = 28 /\
  daysInMonth 0 (newDate 0 2000 1 10) = 29 /\
  daysInMonth 0 Examples.mid_march_2024 = 31.
Proof. repeat split; vm_compute; reflexivity. Qed.

(** The query window of [graphql.ts] in mid-March 2024; on 31 January the
    month overflow of [setUTCMonth] moves its end to the end of February. *)
Example query_window_samples :
  getMonthStart Examples.mid_march_2024 = "2024-03-01T00:00:00.000Z"%string /\
  getMonthEnd Examples.mid_march_2024 = "2024-03-31T23:59:59.999Z"%string /\
  getMonthStartDate Examples.mid_march_2024 = "2024-03-01"%string /\
  toISOString 1706702400000 = "2024-01-31T12:00:00.000Z"%string /\
  getMonthEnd 1706702400000 = "2024-02-29T23:59:59.999Z"%string.
Proof. repeat split; vm_compute; reflexivity. Qed.

End Calendar.

(** ** Aggregators on empty result sets *)

Section EmptyResults.

Lemma getAccountId_configured (e : Env) :
  falsy e.(CLOUDFLARE_ACCOUNT_ID) = false ->
  exists id, getAccountId e = Normal id.
Proof.
  unfold getAccountId, falsy.
  destruct (CLOUDFLARE_ACCOUNT_ID e) as [[|c rest]|]; try discriminate.
  intros _. now eexists.
Qed.

Lemma fetchGraphQL_payload {T} (e : Env) (accounts : list T) :
  Spec.configured e ->
  fetchGraphQL e (Payload accounts) = Normal {| accounts := accounts |}.
Proof.
  intros [Ha Ht]. unfold fetchGraphQL. now rewrite Ha, Ht.
Qed.

Lemma fetchGraphQL_empty {G} (e : Env) (r : Reply (Account G)) :
  Spec.configured e -> Spec.empty_reply r ->
  exists data, fetchGraphQL e r = Normal data /\ groups_of data = [].
Proof.
  intros He (accounts & -> & Hg).
  exists {| accounts := accounts |}. split; [|exact Hg].
  now apply fetchGraphQL_payload.
Qed.

Lemma buildMetric_zero (n u r : string) (l cost : number) :
  cost == 0 ->
  Spec.zero_metric
    (buildMetric {| mi_name := n; mi_current := 0; mi_limit := l;
                    mi_unit := u; mi_rate := r |} cost).
Proof.
  intros Hc. unfold Spec.zero_metric; cbn.
  split; [reflexivity|]. split; [|exact Hc].
  destruct (gt0 l); [|reflexivity]. unfold Qdiv. ring.
Qed.

Lemma workersAIUsage_empty (tza now : Z) :
  Forall Spec.zero_metric (workersAIUsage tza now []).(metrics).
Proof.
  unfold workersAIUsage; cbn [buildProductUsage metrics].
  constructor; [|constructor].
  apply buildMetric_zero. apply calculatePer1KCost_within.
  change (sumField [] (fun i : AIGroup => totalNeurons i)) with 0.
  apply Qmult_le_0_compat; [discriminate|].
  change 0 with (inject_Z 0). rewrite <- Zle_Qle.
  pose proof (daysInMonth_pos tza now). lia.
Qed.

Lemma closed_metrics_zero (ms : list UsageMetric) :
  forallb (fun m => Qeq_bool m.(current) 0 && Qeq_bool m.(percentage) 0
                    && Qeq_bool m.(overageCost) 0) ms = true ->
  Forall Spec.zero_metric ms.
Proof.
  rewrite forallb_forall, Forall_forall. intros H m Hm.
  specialize (H m Hm). rewrite !andb_true_iff in H.
  destruct H as [[H1 H2] H3]. unfold Spec.zero_metric.
  repeat split; now apply Qeq_bool_eq.
Qed.

Lemma zero_metrics_total (product : string) (ms : list UsageMetric) :
  Forall Spec.zero_metric ms ->
  (buildProductUsage product ms).(totalOverageCost) == 0.
Proof.
  intros H. cbn [buildProductUsage totalOverageCost]. rewrite reduce_sum.
  induction H as [|m ms (_ & _ & Hm) _ IH]; cbn [map Spec.total].
  - reflexivity.
  - rewrite Hm, IH. reflexivity.
Qed.

End EmptyResults.

(** C8.  With both credentials configured, an aggregator whose queries are
    all answered successfully but with no counter groups returns a
    [ProductUsage] (neither [null] nor an error) whose metrics all have
    current 0, percentage 0 and overage cost 0. *)
Theorem empty_results_give_zero_metrics (w : World) (s : Slot) :
  Spec.configured w.(env) ->
  Spec.empty_results w.(upstream) s ->
  exists p,
    aggregator s w = Normal (Some p) /\
    p.(product) = service_name s /\
    p.(metrics) <> [] /\
    Forall Spec.zero_metric p.(metrics) /\
    p.(totalOverageCost) == 0.
Proof.
  intros Hc He.
  destruct (getAccountId_configured _ (proj1 Hc)) as [id Hid].
  destruct s; cbn [Spec.empty_results] in He;
    cbn [aggregator service_name];
    unfold fetchR2Usage, fetchWorkersUsage, fetchKVUsage, fetchD1Usage,
      fetchImagesUsage, fetchWorkersAIUsage, fetchVectorizeUsage;
    rewrite Hid; cbn [bind];
    repeat match goal with
      | H : _ /\ _ |- _ => destruct H
      end;
    repeat match goal with
      | H : Spec.empty_reply _ |- _ =>
          let Hd := fresh "Hd" in
          let Hg := fresh "Hg" in
          destruct (fetchGraphQL_empty _ _ Hc H) as (? & Hd & Hg);
          rewrite Hd; clear H Hd
      end;
    cbn [Promise_all2 bind];
    repeat match goal with
      | H : groups_of _ = [] |- _ => rewrite H; clear H
      end;
    eexists; (split; [reflexivity|]).
  - split; [reflexivity|]. split; [discriminate|].
    split; [apply closed_metrics_zero|]; reflexivity.
  - split; [reflexivity|]. split; [discriminate|].
    split; [apply closed_metrics_zero|]; reflexivity.
  - split; [reflexivity|]. split; [discriminate|].
    split; [apply closed_metrics_zero|]; reflexivity.
  - split; [reflexivity|]. split; [discriminate|].
    split; [apply closed_metrics_zero|]; reflexivity.
  - split; [reflexivity|]. split; [discriminate|].
    split; [apply closed_metrics_zero|]; reflexivity.
  - split; [reflexivity|]. split; [discriminate|].
    pose proof (workersAIUsage_empty (tza w) (now w)) as Hz.
    split; [exact Hz|].
    apply zero_metrics_total. exact Hz.
  - split; [reflexivity|]. split; [discriminate|].
    split; [apply closed_metrics_zero|]; reflexivity.
Qed.

Lemma empty_results_give_zero_metrics_witness :
  exists p,
    aggregator KV (Examples.world Examples.upstream_empty) = Normal (Some p) /\
    p.(product) = service_name KV /\
    p.(metrics) <> [] /\
    Forall Spec.zero_metric p.(metrics) /\
    p.(totalOverageCost) == 0.
Proof.
  apply (empty_results_give_zero_metrics
           (Examples.world Examples.upstream_empty) KV).
  - split; reflexivity.
  - split; exists []; split; reflexivity.
Defined.

(** ** The fan-out of [$fetchAllUsage] *)

Section FanOut.

Local Open Scope list_scope.

Variable call : Slot -> Completion (option ProductUsage).

Lemma branch_run (s : Slot) (errs : list ServiceError) :
  catch_ (call s) (captureError (service_name s)) errs
  = (Spec.settled_value call s, errs ++ Spec.pushed call s).
Proof.
  unfold catch_, captureError, Spec.settled_value, Spec.pushed.
  destruct (call s); [now rewrite app_nil_r|reflexivity].
Qed.

Lemma Slot_eqb_eq (a b : Slot) : Slot_eqb a b = true <-> a = b.
Proof. destruct a, b; cbn; split; congruence. Qed.

Lemma Promise_all_run (order : list Slot) (errs : list ServiceError) :
  let st :=
    Promise_all order
      (fun s => catch_ (call s) (captureError (service_name s))) errs in
  (forall s, In s order -> fst st s = Spec.settled_value call s) /\
  snd st = errs ++ flat_map (Spec.pushed call) order.
Proof.
  unfold Promise_all.
  generalize (fun _ : Slot => @None ProductUsage) as res0.
  revert errs.
  assert (G : forall order (res0 : Results) errs,
    let st := fold_left
      (fun (st : Results * list ServiceError) s =>
         let '(res, errs) := st in
         let '(v, errs') :=
           catch_ (call s) (captureError (service_name s)) errs in
         (set_result res s v, errs'))
      order (res0, errs) in
    (forall s, fst st s = if existsb (Slot_eqb s) order
                          then Spec.settled_value call s else res0 s) /\
    snd st = errs ++ flat_map (Spec.pushed call) order).
  { clear. intros order. induction order as [|a order IH]; intros res0 errs.
    - cbn. split; [reflexivity|now rewrite app_nil_r].
    - cbn [fold_left]. rewrite branch_run.
      specialize (IH (set_result res0 a (Spec.settled_value call a))
                    (errs ++ Spec.pushed call a)).
      cbv zeta in IH |- *. destruct IH as [IH1 IH2]. split.
      + intros s. rewrite IH1. cbn [existsb]. unfold set_result.
        destruct (existsb (Slot_eqb s) order).
        * now rewrite orb_true_r.
        * rewrite orb_false_r.
          destruct (Slot_eqb a s) eqn:E1.
          -- apply Slot_eqb_eq in E1. subst a.
             now rewrite (proj2 (Slot_eqb_eq s s) eq_refl).
          -- destruct (Slot_eqb s a) eqn:E2; [|reflexivity].
             apply Slot_eqb_eq in E2. subst a.
             now rewrite (proj2 (Slot_eqb_eq s s) eq_refl) in E1.
      + rewrite IH2. cbn [flat_map]. now rewrite app_assoc. }
  intros errs res0. specialize (G order res0 errs). cbv zeta in G |- *.
  destruct G as [G1 G2]. split; [|exact G2].
  intros s Hs. rewrite G1.
  assert (E : existsb (Slot_eqb s) order = true).
  { apply existsb_exists. exists s. split; [exact Hs|].
    now apply Slot_eqb_eq. }
  now rewrite E.
Qed.

Lemma insert_by_Permutation (t : Slot -> nat) (s : Slot) (l : list Slot) :
  Permutation (insert_by t s l) (s :: l).
Proof.
  induction l as [|x l IH]; cbn [insert_by].
  - reflexivity.
  - destruct (t s <=? t x)%nat; [reflexivity|].
    rewrite IH. apply perm_swap.
Qed.

Lemma settle_order_Permutation (t : Slot -> nat) :
  Permutation (settle_order t) all_slots.
Proof.
  unfold settle_order. induction all_slots as [|x l IH]; cbn [fold_right].
  - reflexivity.
  - rewrite insert_by_Permutation. now constructor.
Qed.

Lemma settle_order_In (t : Slot -> nat) (s : Slot) : In s (settle_order t).
Proof.
  apply (Permutation_in s (Permutation_sym (settle_order_Permutation t))).
  destruct s; cbn; tauto.
Qed.

Lemma service_name_eqb (a s : Slot) :
  String.eqb (service_name a) (service_name s) = Slot_eqb a s.
Proof. destruct a, s; reflexivity. Qed.

Lemma errors_of_pushed (a s : Slot) :
  Spec.errors_of s (Spec.pushed call a)
  = if Slot_eqb a s then Spec.pushed call a else [].
Proof.
  unfold Spec.errors_of, Spec.pushed.
  destruct (call a); cbn [filter service].
  - now destruct (Slot_eqb a s).
  - rewrite service_name_eqb. now destruct (Slot_eqb a s).
Qed.

Lemma errors_of_app (s : Slot) (xs ys : list ServiceError) :
  Spec.errors_of s (xs ++ ys) = Spec.errors_of s xs ++ Spec.errors_of s ys.
Proof. unfold Spec.errors_of. apply filter_app. Qed.

Lemma errors_of_others (s : Slot) (l : list Slot) :
  ~ In s l -> Spec.errors_of s (flat_map (Spec.pushed call) l) = [].
Proof.
  induction l as [|a l IH]; intros Hs; [reflexivity|].
  cbn [flat_map]. rewrite errors_of_app, errors_of_pushed, IH.
  - destruct (Slot_eqb a s) eqn:E; [|reflexivity].
    apply Slot_eqb_eq in E. subst a. elim Hs. now left.
  - intros H. apply Hs. now right.
Qed.

(** Among the errors pushed by distinct branches, those labelled with
    branch [s] are exactly the ones [s] pushed. *)
Lemma errors_of_flat_map (s : Slot) (l : list Slot) :
  NoDup l -> In s l ->
  Spec.errors_of s (flat_map (Spec.pushed call) l) = Spec.pushed call s.
Proof.
  induction 1 as [|a l Ha Hl IH]; intros Hs; [destruct Hs|].
  cbn [flat_map]. rewrite errors_of_app, errors_of_pushed.
  destruct (Slot_eqb a s) eqn:E.
  - apply Slot_eqb_eq in E. subst a.
    rewrite errors_of_others by exact Ha. apply app_nil_r.
  - destruct Hs as [->|Hs].
    + now rewrite (proj2 (Slot_eqb_eq s s) eq_refl) in E.
    + now rewrite IH.
Qed.

Lemma all_slots_NoDup : NoDup all_slots.
Proof.
  unfold all_slots.
  repeat (constructor; [cbn; intuition discriminate|]). constructor.
Qed.

Lemma settle_order_NoDup (t : Slot -> nat) : NoDup (settle_order t).
Proof.
  apply (Permutation_NoDup (Permutation_sym (settle_order_Permutation t))).
  exact all_slots_NoDup.
Qed.

(** The null-coalesced costs of the seven slots add up to the costs of the
    products present. *)
Lemma coalesced_costs (slots : list (option ProductUsage)) :
  Spec.total
    (map (fun item => (optchain item totalOverageCost ?? 0)%js) slots)
  == Spec.total
       (map totalOverageCost
          (flat_map (fun o => match o with Some p => [p] | None => [] end)
             slots)).
Proof.
  induction slots as [|o slots IH]; [reflexivity|].
  cbn [map flat_map Spec.total]. rewrite map_app, total_app, IH.
  destruct o; cbn; ring.
Qed.

(** The run of [$fetchAllUsage] once the account id is known to be set. *)
Lemma fetchAllUsage_from_run (env : Env) (tza now : Z)
    (settle : Slot -> nat) :
  falsy env.(CLOUDFLARE_ACCOUNT_ID) = false ->
  exists d,
    fetchAllUsage_from env tza now settle call = Normal d /\
    (forall s, slot d s = Spec.settled_value call s) /\
    d.(errors) = flat_map (Spec.pushed call) (settle_order settle) /\
    d.(totalEstimatedCost)
      == WORKERS_PAID_LIMITS.baseCost
         + Spec.total (map totalOverageCost (Spec.present d)) /\
    d.(billingPeriod)
      = {| start := toISOString
                      (newDate tza (getFullYear tza now) (getMonth tza now) 1);
           end_ := toISOString
                     (newDate tza (getFullYear tza now)
                        (getMonth tza now + 1)%Z 0) |}.
Proof.
  intros Hid. destruct (getAccountId_configured _ Hid) as [id Eid].
  unfold fetchAllUsage_from. rewrite Eid. cbn [bind].
  pose proof (Promise_all_run (settle_order settle) []) as [Hv He].
  destruct (Promise_all _ _ _) as [res errs]. cbn [fst snd] in Hv, He.
  eexists. split; [reflexivity|].
  split; [|split; [|split]].
  - intros s. destruct s; cbn [slot r2 workers kv d1 images ai vectorize];
      apply Hv, settle_order_In.
  - exact He.
  - cbn [totalEstimatedCost]. apply Qplus_comp; [reflexivity|].
    etransitivity; [apply reduce_sum|].
    etransitivity; [apply coalesced_costs|]. reflexivity.
  - reflexivity.
Qed.

End FanOut.

(** C1.  Whatever the seven aggregations produce (a [ProductUsage], [null]
    or a failure each), the summary's [totalEstimatedCost] is the base fee
    plus the sum of [totalOverageCost] over the products present in the
    summary; [null] slots contribute nothing, so with all seven slots
    [null] the total is the base fee. *)
Theorem total_is_base_plus_present_overage (env : Env) (tza now : Z)
    (settle : Slot -> nat) (call : Slot -> Completion (option ProductUsage)) :
  falsy env.(CLOUDFLARE_ACCOUNT_ID) = false ->
  exists d,
    fetchAllUsage_from env tza now settle call = Normal d /\
    d.(totalEstimatedCost)
      == WORKERS_PAID_LIMITS.baseCost
         + Spec.total (map totalOverageCost (Spec.present d)) /\
    ((forall s, slot d s = None) ->
       d.(totalEstimatedCost) == WORKERS_PAID_LIMITS.baseCost).
Proof.
  intros Hid.
  destruct (fetchAllUsage_from_run call env tza now settle Hid)
    as (d & Hd & _ & _ & Ht & _).
  exists d. split; [exact Hd|]. split; [exact Ht|].
  intros Hnull. rewrite Ht. unfold Spec.present, all_slots.
  cbn [flat_map]. rewrite !Hnull. cbn [app map Spec.total]. ring.
Qed.

Lemma total_is_base_plus_present_overage_witness :
  exists d,
    fetchAllUsage (Examples.world Examples.upstream_partial) = Normal d /\
    d.(totalEstimatedCost)
      == WORKERS_PAID_LIMITS.baseCost
         + Spec.total (map totalOverageCost (Spec.present d)) /\
    ((forall s, slot d s = None) ->
       d.(totalEstimatedCost) == WORKERS_PAID_LIMITS.baseCost).
Proof.
  apply (total_is_base_plus_present_overage Examples.env_ok 0
           Examples.mid_march_2024
           (settle_time (Examples.world Examples.upstream_partial))
           (fun s => aggregator s (Examples.world Examples.upstream_partial))).
  reflexivity.
Defined.

(** C2.  Whichever of the seven aggregators fail, [$fetchAllUsage] returns
    a summary: a failing aggregator leaves [null] in its slot and exactly
    one [ServiceError] with its service label and the error's message; a
    succeeding aggregator's result is in its slot unchanged and no error
    carries its label; the error list holds nothing else.  The call itself
    completes normally. *)
Theorem failures_captured_per_product (env : Env) (tza now : Z)
    (settle : Slot -> nat) (call : Slot -> Completion (option ProductUsage)) :
  falsy env.(CLOUDFLARE_ACCOUNT_ID) = false ->
  exists d,
    fetchAllUsage_from env tza now settle call = Normal d /\
    (forall s v, call s = Normal v ->
       slot d s = v /\ Spec.errors_of s d.(errors) = []) /\
    (forall s e, call s = Throw e ->
       slot d s = None /\
       Spec.errors_of s d.(errors)
       = [{| service := service_name s; message := e |}]) /\
    Permutation d.(errors) (Spec.failures call).
Proof.
  intros Hid.
  destruct (fetchAllUsage_from_run call env tza now settle Hid)
    as (d & Hd & Hs & He & _ & _).
  exists d. split; [exact Hd|].
  assert (Hof : forall s, Spec.errors_of s d.(errors) = Spec.pushed call s).
  { intros s. rewrite He.
    apply errors_of_flat_map;
      [apply settle_order_NoDup|apply settle_order_In]. }
  split; [|split].
  - intros s v Hc. rewrite Hs, Hof.
    unfold Spec.settled_value, Spec.pushed. now rewrite Hc.
  - intros s e Hc. rewrite Hs, Hof.
    unfold Spec.settled_value, Spec.pushed. now rewrite Hc.
  - rewrite He. unfold Spec.failures.
    apply Permutation_flat_map, settle_order_Permutation.
Qed.

Lemma failures_captured_per_product_witness :
  exists d,
    fetchAllUsage (Examples.world Examples.upstream_partial) = Normal d /\
    (forall s v,
       aggregator s (Examples.world Examples.upstream_partial) = Normal v ->
       slot d s = v /\ Spec.errors_of s d.(errors) = []) /\
    (forall s e,
       aggregator s (Examples.world Examples.upstream_partial) = Throw e ->
       slot d s = None /\
       Spec.errors_of s d.(errors)
       = [{| service := service_name s; message := e |}]) /\
    Permutation d.(errors)
      (Spec.failures
         (fun s => aggregator s (Examples.world Examples.upstream_partial))).
Proof.
  apply (failures_captured_per_product Examples.env_ok 0
           Examples.mid_march_2024
           (settle_time (Examples.world Examples.upstream_partial))
           (fun s => aggregator s (Examples.world Examples.upstream_partial))).
  reflexivity.
Defined.

(** Without an account id the summary is refused before any branch runs. *)
Lemma fetchAllUsage_unconfigured (env : Env) (tza now : Z)
    (settle : Slot -> nat) (call : Slot -> Completion (option ProductUsage)) :
  falsy env.(CLOUDFLARE_ACCOUNT_ID) = true ->
  fetchAllUsage_from env tza now settle call
  = Throw "Missing CLOUDFLARE_ACCOUNT_ID".
Proof.
  unfold fetchAllUsage_from, getAccountId, falsy.
  destruct (CLOUDFLARE_ACCOUNT_ID env) as [[|c rest]|];
    intros H; try discriminate H; reflexivity.
Qed.

(** The failure scenarios of the specification, evaluated. *)
Example partial_failure_scenario :
  match fetchAllUsage (Examples.world Examples.upstream_partial) with
  | Normal d =>
      d.(r2) = None /\ d.(d1) = None /\
      d.(errors)
      = [ {| service := "D1 Database";
             message := "Cloudflare API error: 503 - Service Unavailable" |};
          {| service := "R2 Storage"; message := "timeout" |} ] /\
      d.(totalEstimatedCost) == 8
  | Throw _ => False
  end.
Proof. vm_compute. repeat split. Qed.

Example unconfigured_account_scenario :
  fetchAllUsage_from
    {| CLOUDFLARE_ACCOUNT_ID := None; CLOUDFLARE_API_TOKEN := Some "tok" |}
    0 Examples.mid_march_2024 (fun _ => 0%nat) (fun _ => Throw "timeout")
  = Throw "Missing CLOUDFLARE_ACCOUNT_ID".
Proof. reflexivity. Qed.

Example total_failure_scenario :
  match fetchAllUsage_from Examples.env_ok 0 Examples.mid_march_2024
          (fun _ => 0%nat) (fun _ => Throw "timeout") with
  | Normal d =>
      (forall s, slot d s = None) /\
      map service d.(errors) = map service_name all_slots /\
      d.(totalEstimatedCost) = WORKERS_PAID_LIMITS.baseCost
  | Throw _ => False
  end.
Proof.
  vm_compute. repeat split. intros s; destruct s; reflexivity.
Qed.

(** ** The billing period *)

Section BillingPeriod.

Local Open Scope Z_scope.

Lemma midnight_fields (day : Z) :
  HourFromTime (day * msPerDay) = 0 /\
  MinFromTime (day * msPerDay) = 0 /\
  SecFromTime (day * msPerDay) = 0 /\
  msFromTime (day * msPerDay) = 0.
Proof.
  unfold HourFromTime, MinFromTime, SecFromTime, msFromTime,
    msPerDay, msPerHour, msPerMinute, msPerSecond.
  repeat split; Z.div_mod_to_equations; lia.
Qed.

(** A time value at 00:00:00.000 UTC prints with that time of day. *)
Lemma toISOString_midnight (day : Z) :
  exists date : string,
    toISOString (day * msPerDay) = (date ++ "T00:00:00.000Z")%string.
Proof.
  destruct (midnight_fields day) as (Hh & Hm & Hs & Hms).
  unfold toISOString. rewrite Hh, Hm, Hs, Hms.
  exists (isoYear (YearFromTime (day * msPerDay)) ++ "-" ++
          digits 2 (MonthFromTime (day * msPerDay) + 1) ++ "-" ++
          digits 2 (DateFromTime (day * msPerDay)))%string.
  rewrite !append_assoc. reflexivity.
Qed.

(** On a host whose local time is UTC, the [end] of the billing period is
    always printed at 00:00:00.000, whatever the invocation time. *)
Lemma billing_period_end_at_midnight (env : Env) (now : Z)
    (settle : Slot -> nat) (call : Slot -> Completion (option ProductUsage)) :
  falsy env.(CLOUDFLARE_ACCOUNT_ID) = false ->
  exists d date,
    fetchAllUsage_from env 0 now settle call = Normal d /\
    d.(billingPeriod).(end_) = (date ++ "T00:00:00.000Z")%string.
Proof.
  intros Hid.
  destruct (fetchAllUsage_from_run call env 0 now settle Hid)
    as (d & Hd & _ & _ & _ & Hb).
  exists d. rewrite Hb. cbn [end_]. unfold newDate, UTC, MakeDate; cbv zeta.
  match goal with
  | |- context [MakeDay ?y ?m ?dt] =>
      destruct (toISOString_midnight (MakeDay y m dt)) as [date Hdate];
      replace (MakeDay y m dt * msPerDay + MakeTime 0 0 0 0 - 0)
        with (MakeDay y m dt * msPerDay) by (unfold MakeTime; lia)
  end.
  exists date. split; [exact Hd|exact Hdate].
Qed.

End BillingPeriod.

(** C7.  Evaluated in mid-March 2024 on a UTC host, [$fetchAllUsage]
    reports a billing period that starts on day 1 at 00:00:00.000 but ends
    on the last day of the month at 00:00:00.000, not at 23:59:59.999 as
    [getMonthEnd] computes for the query window; on a host two hours east of
    UTC both ends shift by the offset. *)
Theorem billing_period_in_march_2024 :
  (exists d,
     fetchAllUsage (Examples.world Examples.upstream_empty) = Normal d /\
     d.(billingPeriod) = {| start := "2024-03-01T00:00:00.000Z";
                            end_ := "2024-03-31T00:00:00.000Z" |}) /\
  getMonthStart Examples.mid_march_2024 = "2024-03-01T00:00:00.000Z" /\
  getMonthEnd Examples.mid_march_2024 = "2024-03-31T23:59:59.999Z" /\
  (exists d,
     fetchAllUsage_from Examples.env_ok 7200000 Examples.mid_march_2024
       (fun _ => 0%nat) (fun _ => Throw "timeout") = Normal d /\
     d.(billingPeriod) = {| start := "2024-02-29T22:00:00.000Z";
                            end_ := "2024-03-30T22:00:00.000Z" |}).
Proof.
  split; [|split; [|split]].
  - eexists. split; [vm_compute; reflexivity|]. vm_compute. reflexivity.
  - vm_compute. reflexivity.
  - vm_compute. reflexivity.
  - eexists. split; [vm_compute; reflexivity|]. vm_compute. reflexivity.
Qed.
(** ** Calendar facts behind the date helpers *)

Section CalendarMore.
Local Open Scope Z_scope.

Lemma DaysInYear_leap (y : Z) : DaysInYear y = 365 + leap y.
Proof.
  unfold leap, DaysInYear.
  destruct (y mod 4 =? 0); cbn; [|reflexivity].
  destruct (y mod 100 =? 0); cbn; [|reflexivity].
  destruct (y mod 400 =? 0); reflexivity.
Qed.

Lemma DayFromYear_succ (y : Z) :
  DayFromYear (y + 1) = DayFromYear y + DaysInYear y.
Proof.
  unfold DayFromYear, DaysInYear.
  destruct (Z.eqb_spec (y mod 4) 0); cbn [negb];
    [destruct (Z.eqb_spec (y mod 100) 0); cbn [negb];
       [destruct (Z.eqb_spec (y mod 400) 0); cbn [negb]|]|];
    Z.div_mod_to_equations; lia.
Qed.

Lemma DayFromYear_mono (y1 y2 : Z) :
  y1 <= y2 -> DayFromYear y1 <= DayFromYear y2.
Proof.
  intros H. unfold DayFromYear. Z.div_mod_to_equations. lia.
Qed.

Lemma YearFromDay_unique (d y : Z) :
  DayFromYear y <= d < DayFromYear (y + 1) -> YearFromDay d = y.
Proof.
  intros H. pose proof (YearFromDay_spec d) as S.
  destruct (Z.lt_trichotomy (YearFromDay d) y) as [L|[E|G]]; [|exact E|].
  - pose proof (DayFromYear_mono (YearFromDay d + 1) y ltac:(lia)). lia.
  - pose proof (DayFromYear_mono (y + 1) (YearFromDay d) ltac:(lia)). lia.
Qed.

Lemma Day_MakeDate (d time : Z) :
  0 <= time < msPerDay ->
  Day (MakeDate d time) = d /\ TimeWithinDay (MakeDate d time) = time.
Proof.
  unfold Day, TimeWithinDay, MakeDate, msPerDay. intros H.
  split; Z.div_mod_to_equations; lia.
Qed.

Lemma month_cases (mn : Z) :
  0 <= mn <= 11 ->
  mn = 0 \/ mn = 1 \/ mn = 2 \/ mn = 3 \/ mn = 4 \/ mn = 5 \/ mn = 6 \/
  mn = 7 \/ mn = 8 \/ mn = 9 \/ mn = 10 \/ mn = 11.
Proof. lia. Qed.

Ltac each_month H :=
  destruct (month_cases _ H) as
    [?|[?|[?|[?|[?|[?|[?|[?|[?|[?|[?|?]]]]]]]]]]]; subst.

Ltac split_ltb :=
  repeat match goal with
  | |- context [?a <? ?b] => destruct (Z.ltb_spec a b)
  end.

Lemma MakeDay_in_year (y mn dt : Z) :
  0 <= mn <= 11 ->
  MakeDay y mn dt = DayFromYear y + DaysBeforeMonth y mn + dt - 1.
Proof.
  intros H. unfold MakeDay; cbv zeta.
  rewrite Z.div_small, Z.mod_small, Z.add_0_r by lia. reflexivity.
Qed.

Ltac table := cbv beta iota zeta delta [DaysBeforeMonth MonthLength] in *.

(** The fields of a time value built from a valid civil date. *)
Lemma civil_fields (y mn dt time : Z) :
  0 <= mn <= 11 -> 1 <= dt <= MonthLength y mn -> 0 <= time < msPerDay ->
  let t := MakeDate (MakeDay y mn dt) time in
  YearFromTime t = y /\ MonthFromTime t = mn /\ DateFromTime t = dt /\
  TimeWithinDay t = time /\ Day t = MakeDay y mn dt.
Proof.
  intros Hm Hd Ht t. subst t.
  destruct (Day_MakeDate (MakeDay y mn dt) time Ht) as [HD HT].
  assert (HW : MakeDay y mn dt = DayFromYear y + (DaysBeforeMonth y mn + dt - 1)
               /\ 0 <= DaysBeforeMonth y mn + dt - 1 < DaysInYear y).
  { rewrite DaysInYear_leap, MakeDay_in_year by exact Hm.
    destruct (leap_01 y) as [Hl|Hl]; each_month Hm; table; lia. }
  destruct HW as [HW HR].
  assert (HY : YearFromTime (MakeDate (MakeDay y mn dt) time) = y).
  { unfold YearFromTime. rewrite HD. apply YearFromDay_unique.
    rewrite DayFromYear_succ. lia. }
  assert (HDW : DayWithinYear (MakeDate (MakeDay y mn dt) time)
                = DaysBeforeMonth y mn + dt - 1).
  { unfold DayWithinYear. rewrite HY, HD. lia. }
  assert (HM : MonthFromTime (MakeDate (MakeDay y mn dt) time) = mn).
  { unfold MonthFromTime, InLeapYear. rewrite HY, HDW.
    destruct (leap_01 y) as [Hl|Hl]; each_month Hm; table; split_ltb; lia. }
  repeat split; try assumption.
  unfold DateFromTime. rewrite HM. unfold InLeapYear. rewrite HY, HDW.
  each_month Hm; table; lia.
Qed.

(** Every time value is the civil date its fields name. *)
Lemma civil_decomposition (t : Z) :
  0 <= MonthFromTime t <= 11 /\
  1 <= DateFromTime t <= MonthLength (YearFromTime t) (MonthFromTime t) /\
  0 <= TimeWithinDay t < msPerDay /\
  t = MakeDate (MakeDay (YearFromTime t) (MonthFromTime t) (DateFromTime t))
        (TimeWithinDay t).
Proof.
  pose proof (YearFromDay_spec (Day t)) as HS.
  rewrite DayFromYear_succ, DaysInYear_leap in HS.
  fold (YearFromTime t) in HS.
  assert (HT : 0 <= TimeWithinDay t < msPerDay).
  { unfold TimeWithinDay, msPerDay. Z.div_mod_to_equations. lia. }
  assert (Ht : t = Day t * msPerDay + TimeWithinDay t).
  { unfold Day, TimeWithinDay, msPerDay. Z.div_mod_to_equations. lia. }
  assert (HM : 0 <= MonthFromTime t <= 11).
  { unfold MonthFromTime; cbv zeta. split_ltb; lia. }
  assert (HD : 1 <= DateFromTime t <= MonthLength (YearFromTime t) (MonthFromTime t)
               /\ Day t = MakeDay (YearFromTime t) (MonthFromTime t) (DateFromTime t)).
  { rewrite MakeDay_in_year by exact HM. revert HM.
    unfold DateFromTime, MonthFromTime, InLeapYear, DayWithinYear; cbv zeta.
    destruct (leap_01 (YearFromTime t)) as [Hl|Hl]; split_ltb; intros _;
      table; lia. }
  destruct HD as [HD1 HD2].
  repeat split; try lia. unfold MakeDate. rewrite <- HD2. exact Ht.
Qed.

Lemma MakeDay_shift (y mn dt k : Z) :
  MakeDay y mn (dt + k) = MakeDay y mn dt + k.
Proof. unfold MakeDay. lia. Qed.

Lemma next_month_range (y mn : Z) :
  0 <= mn <= 11 -> 0 <= snd (next_month y mn) <= 11.
Proof.
  intros H. unfold next_month. destruct (Z.eqb_spec mn 11); cbn; lia.
Qed.

(** Month [mn + 1] of year [y] is the month after [mn], also across the
    end of the year. *)
Lemma MakeDay_next (y mn dt : Z) :
  0 <= mn <= 11 ->
  MakeDay y (mn + 1) dt
  = MakeDay (fst (next_month y mn)) (snd (next_month y mn)) dt.
Proof.
  intros H. unfold next_month. destruct (Z.eqb_spec mn 11) as [->|Hne].
  - cbn [fst snd]. unfold MakeDay.
    change ((11 + 1) / 12) with 1. change ((11 + 1) mod 12) with 0.
    change (0 / 12) with 0. change (0 mod 12) with 0.
    table. rewrite !Z.add_0_r. reflexivity.
  - reflexivity.
Qed.

Lemma MonthLength_range (y mn : Z) : 28 <= MonthLength y mn <= 31.
Proof.
  unfold MonthLength. destruct (leap_01 y) as [Hl|Hl]; rewrite Hl.
  all: destruct mn as [|p|p]; try lia.
  all: do 4 (try destruct p as [p|p|]); lia.
Qed.

(** Day 0 of a month is the last day of the month before it. *)
Lemma MakeDay_month_end (y mn : Z) :
  0 <= mn <= 11 ->
  MakeDay (fst (next_month y mn)) (snd (next_month y mn)) 0
  = MakeDay y mn (MonthLength y mn).
Proof.
  intros H. pose proof (next_month_range y mn H) as Hn.
  rewrite !MakeDay_in_year by assumption. unfold next_month in *.
  destruct (Z.eqb_spec mn 11) as [->|Hne]; cbn [fst snd] in *.
  - rewrite DayFromYear_succ, DaysInYear_leap. table.
    lia.
  - each_month H;
      try match goal with
      | |- context [DaysBeforeMonth _ (?a + 1)] =>
          let v := eval compute in (a + 1) in change (a + 1) with v
      end; table; lia.
Qed.

End CalendarMore.
Section QueryWindow.
Local Open Scope Z_scope.

Lemma setUTCDate_day (t dt : Z) :
  setUTCDate t dt
  = MakeDate (MakeDay (YearFromTime t) (MonthFromTime t) dt) (TimeWithinDay t)
  /\ Day (setUTCDate t dt) = MakeDay (YearFromTime t) (MonthFromTime t) dt.
Proof.
  split; [reflexivity|]. unfold setUTCDate.
  apply Day_MakeDate. apply civil_decomposition.
Qed.

(** The instant [getMonthStart] prints. *)
Lemma getMonthStart_instant (now : Z) :
  getMonthStart now
  = toISOString (month_first_ms (YearFromTime now) (MonthFromTime now)).
Proof.
  unfold getMonthStart, setUTCHours, month_first_ms; cbv zeta.
  now rewrite (proj2 (setUTCDate_day now 1)).
Qed.

Lemma month_first_ms_fields (y mn : Z) :
  0 <= mn <= 11 ->
  let t0 := month_first_ms y mn in
  YearFromTime t0 = y /\ MonthFromTime t0 = mn /\ DateFromTime t0 = 1 /\
  TimeWithinDay t0 = 0.
Proof.
  intros H t0. subst t0. unfold month_first_ms.
  pose proof (MonthLength_range y mn).
  destruct (civil_fields y mn 1 0 H ltac:(lia) ltac:(unfold msPerDay; lia))
    as (? & ? & ? & ? & _).
  auto.
Qed.

Lemma toISOString_first_of_month (y mn : Z) :
  0 <= mn <= 11 ->
  toISOString (month_first_ms y mn)
  = (isoYear y ++ "-" ++ digits 2 (mn + 1) ++ "-01T00:00:00.000Z")%string.
Proof.
  intros H. destruct (month_first_ms_fields y mn H) as (HY & HM & HD & _).
  unfold toISOString. rewrite HY, HM, HD.
  unfold month_first_ms, MakeDate. rewrite Z.add_0_r.
  destruct (midnight_fields (MakeDay y mn 1)) as (-> & -> & -> & ->).
  reflexivity.
Qed.

End QueryWindow.

(** X1.  [getMonthStart] prints the first instant of the UTC month that
    contains [now]: same year and month, day 1, 00:00:00.000, and not after
    [now]. *)
Theorem getMonthStart_is_first_instant (now : Z) :
  let y := YearFromTime now in
  let m := MonthFromTime now in
  let t0 := month_first_ms y m in
  getMonthStart now = toISOString t0 /\
  getMonthStart now
    = (isoYear y ++ "-" ++ digits 2 (m + 1) ++ "-01T00:00:00.000Z")%string /\
  YearFromTime t0 = y /\ MonthFromTime t0 = m /\ DateFromTime t0 = 1%Z /\
  TimeWithinDay t0 = 0%Z /\
  (t0 <= now < t0 + 31 * msPerDay)%Z.
Proof.
  intros y m t0.
  destruct (civil_decomposition now) as (Hm & Hd & Ht & Hnow).
  fold y m in Hm, Hd, Hnow.
  destruct (month_first_ms_fields y m Hm) as (HY & HM & HD & HT).
  split; [apply getMonthStart_instant|].
  split; [rewrite getMonthStart_instant; now apply toISOString_first_of_month|].
  repeat split; try assumption.
  all: subst t0; unfold month_first_ms.
  all: remember (DateFromTime now) as dt eqn:Edt.
  all: remember (TimeWithinDay now) as tw eqn:Etw.
  all: clearbody y m; clear Edt Etw; subst now.
  all: replace dt with (1 + (dt - 1))%Z by lia.
  all: rewrite MakeDay_shift; pose proof (MonthLength_range y m).
  all: unfold MakeDate, msPerDay in *; lia.
Qed.
Section QueryWindowEnd.
Local Open Scope Z_scope.

Lemma end_of_day_fields (day : Z) :
  HourFromTime (day * msPerDay + (msPerDay - 1)) = 23 /\
  MinFromTime (day * msPerDay + (msPerDay - 1)) = 59 /\
  SecFromTime (day * msPerDay + (msPerDay - 1)) = 59 /\
  msFromTime (day * msPerDay + (msPerDay - 1)) = 999.
Proof.
  unfold HourFromTime, MinFromTime, SecFromTime, msFromTime,
    msPerDay, msPerHour, msPerMinute, msPerSecond.
  repeat split; Z.div_mod_to_equations; lia.
Qed.

Lemma month_last_ms_fields (y mn : Z) :
  0 <= mn <= 11 ->
  let t1 := month_last_ms y mn in
  YearFromTime t1 = y /\ MonthFromTime t1 = mn /\
  DateFromTime t1 = MonthLength y mn /\ TimeWithinDay t1 = msPerDay - 1 /\
  t1 + 1 = month_first_ms (fst (next_month y mn)) (snd (next_month y mn)).
Proof.
  intros H t1. subst t1. unfold month_last_ms.
  pose proof (MonthLength_range y mn).
  destruct (civil_fields y mn (MonthLength y mn) (msPerDay - 1) H
              ltac:(lia) ltac:(unfold msPerDay; lia))
    as (? & ? & ? & ? & _).
  repeat split; try assumption.
  unfold month_first_ms.
  replace 1 with (0 + 1) at 3 by reflexivity.
  rewrite MakeDay_shift, MakeDay_month_end by exact H.
  unfold MakeDate, msPerDay. lia.
Qed.

Lemma toISOString_last_of_month (y mn : Z) :
  0 <= mn <= 11 ->
  toISOString (month_last_ms y mn)
  = (isoYear y ++ "-" ++ digits 2 (mn + 1) ++ "-" ++
     digits 2 (MonthLength y mn) ++ "T23:59:59.999Z")%string.
Proof.
  intros H. destruct (month_last_ms_fields y mn H) as (HY & HM & HD & _).
  unfold toISOString. rewrite HY, HM, HD.
  unfold month_last_ms, MakeDate.
  destruct (end_of_day_fields (MakeDay y mn (MonthLength y mn)))
    as (-> & -> & -> & ->).
  reflexivity.
Qed.

(** [getMonthEnd] prints the last millisecond of the month before the one
    that [setUTCMonth] lands in. *)
Lemma getMonthEnd_instant (now y1 m1 : Z) :
  0 <= m1 <= 11 ->
  YearFromTime (setUTCMonth now (getUTCMonth now + 1))
    = fst (next_month y1 m1) ->
  MonthFromTime (setUTCMonth now (getUTCMonth now + 1))
    = snd (next_month y1 m1) ->
  getMonthEnd now = toISOString (month_last_ms y1 m1).
Proof.
  intros Hm HY HM. unfold getMonthEnd, setUTCHours; cbv zeta.
  rewrite (proj2 (setUTCDate_day _ 0)), HY, HM.
  rewrite MakeDay_month_end by exact Hm. reflexivity.
Qed.

Lemma getMonthEnd_lands (now y m dt tw y2 m2 k : Z) :
  YearFromTime now = y -> MonthFromTime now = m ->
  DateFromTime now = dt -> TimeWithinDay now = tw ->
  0 <= tw < msPerDay ->
  0 <= m2 <= 11 ->
  1 <= k <= MonthLength (fst (next_month y2 m2)) (snd (next_month y2 m2)) ->
  MakeDay y (m + 1) dt
    = MakeDay (fst (next_month y2 m2)) (snd (next_month y2 m2)) k ->
  getMonthEnd now = toISOString (month_last_ms y2 m2).
Proof.
  intros Hy Hm Hdt Htw Ht Hm2 Hk HMD.
  apply getMonthEnd_instant; [exact Hm2| |];
    unfold setUTCMonth, getUTCMonth; rewrite Hy, Hm, Hdt, Htw, HMD;
    apply (civil_fields _ _ k tw (next_month_range y2 m2 Hm2) Hk Ht).
Qed.

(** The fields of [now], named. *)
Lemma civil_named (now : Z) :
  exists y m dt tw,
    YearFromTime now = y /\ MonthFromTime now = m /\
    DateFromTime now = dt /\ TimeWithinDay now = tw /\
    0 <= m <= 11 /\ 1 <= dt <= MonthLength y m /\ 0 <= tw < msPerDay /\
    now = MakeDate (MakeDay y m dt) tw.
Proof.
  destruct (civil_decomposition now) as (Hm & Hd & Ht & Hnow).
  exists (YearFromTime now), (MonthFromTime now), (DateFromTime now),
    (TimeWithinDay now). repeat split; tauto.
Qed.

End QueryWindowEnd.

(** X2.  When the day of the month of [now] also exists in the following
    month, [getMonthEnd] prints the last instant of the UTC month that
    contains [now]: its last day at 23:59:59.999, one millisecond before the
    next month starts. *)
Theorem getMonthEnd_is_last_instant (now : Z) :
  let y := YearFromTime now in
  let m := MonthFromTime now in
  let t1 := month_last_ms y m in
  (DateFromTime now
     <= MonthLength (fst (next_month y m)) (snd (next_month y m)))%Z ->
  getMonthEnd now = toISOString t1 /\
  getMonthEnd now
    = (isoYear y ++ "-" ++ digits 2 (m + 1) ++ "-" ++
       digits 2 (MonthLength y m) ++ "T23:59:59.999Z")%string /\
  YearFromTime t1 = y /\ MonthFromTime t1 = m /\
  (now <= t1)%Z /\
  (t1 + 1)%Z = month_first_ms (fst (next_month y m)) (snd (next_month y m)).
Proof.
  cbv zeta.
  destruct (civil_named now)
    as (y & m & dt & tw & -> & -> & -> & Etw & Hm & Hd & Ht & Hnow).
  intros Hfit.
  pose proof (next_month_range y m Hm) as Hn.
  destruct (month_last_ms_fields y m Hm) as (HY & HM & HD & HT & Hnext).
  assert (HE : getMonthEnd now = toISOString (month_last_ms y m)).
  { apply (getMonthEnd_lands now y m dt tw y m dt); try assumption.
    - now subst now; apply (civil_fields y m dt tw Hm Hd Ht).
    - now subst now; apply (civil_fields y m dt tw Hm Hd Ht).
    - now subst now; apply (civil_fields y m dt tw Hm Hd Ht).
    - lia.
    - now apply MakeDay_next. }
  split; [exact HE|].
  split; [rewrite HE; now apply toISOString_last_of_month|].
  repeat split; try assumption.
  unfold month_last_ms. rewrite Hnow.
  replace (MonthLength y m) with (dt + (MonthLength y m - dt))%Z by lia.
  rewrite MakeDay_shift. unfold MakeDate, msPerDay in *. lia.
Qed.

Lemma getMonthEnd_is_last_instant_witness :
  getMonthEnd Examples.mid_march_2024
    = toISOString (month_last_ms 2024 2) /\
  getMonthEnd Examples.mid_march_2024 = "2024-03-31T23:59:59.999Z"%string.
Proof.
  destruct (getMonthEnd_is_last_instant Examples.mid_march_2024)
    as (H1 & H2 & _).
  - vm_compute. discriminate.
  - split; [exact H1|exact H2].
Defined.

(** X3.  When the day of the month of [now] does not exist in the following
    month (the 31st before a 30-day month, 29 to 31 January before
    February), the month overflow of [setUTCMonth] carries [getMonthEnd] one
    month too far: it prints the last instant of the following month. *)
Theorem getMonthEnd_overshoots (now : Z) :
  let y := YearFromTime now in
  let m := MonthFromTime now in
  let y' := fst (next_month y m) in
  let m' := snd (next_month y m) in
  (MonthLength y' m' < DateFromTime now)%Z ->
  getMonthEnd now = toISOString (month_last_ms y' m') /\
  getMonthEnd now
    = (isoYear y' ++ "-" ++ digits 2 (m' + 1) ++ "-" ++
       digits 2 (MonthLength y' m') ++ "T23:59:59.999Z")%string /\
  (month_last_ms y m < month_last_ms y' m')%Z.
Proof.
  cbv zeta.
  destruct (civil_named now)
    as (y & m & dt & tw & -> & -> & -> & Etw & Hm & Hd & Ht & Hnow).
  intros Hover.
  pose proof (next_month_range y m Hm) as Hn.
  remember (fst (next_month y m)) as y' eqn:Ey'.
  remember (snd (next_month y m)) as m' eqn:Em'.
  pose proof (MonthLength_range y m) as R0.
  pose proof (MonthLength_range y' m') as R1.
  pose proof (MonthLength_range (fst (next_month y' m'))
                (snd (next_month y' m'))) as R2.
  assert (HE : getMonthEnd now = toISOString (month_last_ms y' m')).
  { apply (getMonthEnd_lands now y m dt tw y' m' (dt - MonthLength y' m'));
      try assumption.
    - now subst now; apply (civil_fields y m dt tw Hm Hd Ht).
    - now subst now; apply (civil_fields y m dt tw Hm Hd Ht).
    - now subst now; apply (civil_fields y m dt tw Hm Hd Ht).
    - lia.
    - rewrite MakeDay_next by exact Hm. rewrite <- Ey', <- Em'.
      replace dt with (MonthLength y' m' + (dt - MonthLength y' m'))%Z
        at 1 by lia.
      rewrite MakeDay_shift, <- MakeDay_month_end by exact Hn.
      rewrite <- MakeDay_shift. now rewrite Z.add_0_l. }
  split; [exact HE|].
  split; [rewrite HE; now apply toISOString_last_of_month|].
  destruct (month_last_ms_fields y m Hm) as (_ & _ & _ & _ & Hnext).
  rewrite <- Ey', <- Em' in Hnext.
  unfold month_first_ms, month_last_ms in *.
  replace (MonthLength y' m') with (1 + (MonthLength y' m' - 1))%Z by lia.
  rewrite MakeDay_shift. unfold MakeDate, msPerDay in *. lia.
Qed.

Lemma getMonthEnd_overshoots_witness :
  getMonthEnd 1706702400000 = "2024-02-29T23:59:59.999Z"%string.
Proof.
  destruct (getMonthEnd_overshoots 1706702400000) as (_ & H & _).
  - vm_compute. reflexivity.
  - exact H.
Defined.
Section StartDate.
Local Open Scope string_scope.

(** Strings none of whose characters is the letter T. *)
Lemma split_T_0_app (a b : string) :
  (forall c, In c (list_ascii_of_string a) -> c <> "T"%char) ->
  split_T_0 (a ++ String "T" b) = a.
Proof.
  induction a as [|x a IH]; intros H; cbn.
  - reflexivity.
  - destruct (Ascii.eqb_spec x "T") as [E|_].
    + exfalso. apply (H x); [now left|exact E].
    + rewrite IH; [reflexivity|]. intros c Hc. apply H. now right.
Qed.

Lemma list_ascii_app (a b : string) :
  list_ascii_of_string (a ++ b)
  = (list_ascii_of_string a ++ list_ascii_of_string b)%list.
Proof. induction a as [|x a IH]; cbn; [reflexivity|now rewrite IH]. Qed.

Lemma digits_no_T (w : nat) (n : Z) (c : ascii) :
  In c (list_ascii_of_string (digits w n)) -> c <> "T"%char.
Proof.
  revert n. induction w as [|w IH]; intros n; cbn [digits].
  - intros [].
  - rewrite list_ascii_app, in_app_iff. intros [H|H]; [now apply (IH _ H)|].
    cbn in H. destruct H as [<-|[]].
    assert (R : (0 <= n mod 10 < 10)%Z) by (apply Z.mod_pos_bound; lia).
    assert (C : (n mod 10 = 0 \/ n mod 10 = 1 \/ n mod 10 = 2 \/ n mod 10 = 3
                 \/ n mod 10 = 4 \/ n mod 10 = 5 \/ n mod 10 = 6
                 \/ n mod 10 = 7 \/ n mod 10 = 8 \/ n mod 10 = 9)%Z) by lia.
    repeat destruct C as [C|C]; rewrite C; discriminate.
Qed.

Lemma isoYear_no_T (y : Z) (c : ascii) :
  In c (list_ascii_of_string (isoYear y)) -> c <> "T"%char.
Proof.
  unfold isoYear. destruct ((0 <=? y)%Z && (y <=? 9999)%Z).
  - apply digits_no_T.
  - rewrite list_ascii_app, in_app_iff. intros [H|H].
    + destruct (y <? 0)%Z; cbn in H; destruct H as [<-|[]]; discriminate.
    + now apply (digits_no_T _ _ _ H).
Qed.

End StartDate.

(** X4.  [getMonthStartDate] is the date part of [getMonthStart]: the year
    and month of [now] in UTC followed by day 01, in the form YYYY-MM-DD. *)
Theorem getMonthStartDate_is_first_day (now : Z) :
  getMonthStartDate now
  = (isoYear (YearFromTime now) ++ "-" ++
     digits 2 (MonthFromTime now + 1) ++ "-01")%string.
Proof.
  unfold getMonthStartDate.
  destruct (civil_decomposition now) as (Hm & _).
  rewrite getMonthStart_instant, toISOString_first_of_month by exact Hm.
  set (a := (isoYear (YearFromTime now) ++ "-" ++
             digits 2 (MonthFromTime now + 1) ++ "-01")%string).
  replace (isoYear (YearFromTime now) ++ "-" ++
           digits 2 (MonthFromTime now + 1) ++ "-01T00:00:00.000Z")%string
    with (a ++ String "T" "00:00:00.000Z")%string
    by (subst a; rewrite !append_assoc; reflexivity).
  apply split_T_0_app. subst a. intros c.
  rewrite !list_ascii_app, !in_app_iff.
  intros [H|[H|[H|H]]].
  - now apply (isoYear_no_T _ _ H).
  - cbn in H. destruct H as [<-|[]]. discriminate.
  - now apply (digits_no_T _ _ _ H).
  - cbn in H. destruct H as [<-|[<-|[<-|[]]]]; discriminate.
Qed.
Section Allowance.
Local Open Scope Z_scope.

Lemma daysInMonth_length (tza now : Z) :
  let y := getFullYear tza now in
  let m := getMonth tza now in
  let yr := if (0 <=? y) && (y <=? 99) then 1900 + y else y in
  daysInMonth tza now = MonthLength yr m.
Proof.
  intros y m yr.
  destruct (civil_decomposition (LocalTime tza now)) as (Hm & _).
  fold (getMonth tza now) in Hm. fold m in Hm.
  unfold daysInMonth, getDate, newDate; cbv zeta. fold y m yr.
  unfold LocalTime at 1. unfold UTC.
  replace (MakeDate (MakeDay yr (m + 1) 0) (MakeTime 0 0 0 0) - tza + tza)
    with (MakeDate (MakeDay yr (m + 1) 0) 0)
    by (change (MakeTime 0 0 0 0) with 0; lia).
  rewrite MakeDay_next, MakeDay_month_end by exact Hm.
  pose proof (MonthLength_range yr m).
  apply (civil_fields yr m (MonthLength yr m) 0 Hm);
    [lia|unfold msPerDay; lia].
Qed.

End Allowance.

(** X5.  The Workers AI free allowance follows the calendar: the day count
    it multiplies by is the length of the host-local month of [now] (taken
    in year 1900 + y when the local year y is between 0 and 99, as the
    [Date] constructor reads two-digit years), so the monthly limit of the
    Neurons metric is between 280,000 and 310,000. *)
Theorem workersAI_allowance_is_month_length (tza now : Z)
    (aiData : list AIGroup) :
  let y := getFullYear tza now in
  let m := getMonth tza now in
  let yr := if ((0 <=? y) && (y <=? 99))%Z then (1900 + y)%Z else y in
  daysInMonth tza now = MonthLength yr m /\
  (28 <= daysInMonth tza now <= 31)%Z /\
  exists metric,
    (workersAIUsage tza now aiData).(metrics) = [metric] /\
    metric.(limit) = 10000 * inject_Z (MonthLength yr m) /\
    280000 <= metric.(limit) <= 310000.
Proof.
  intros y m yr. pose proof (daysInMonth_length tza now) as H.
  cbv zeta in H. fold y m yr in H.
  pose proof (MonthLength_range yr m) as R.
  split; [exact H|]. split; [rewrite H; exact R|].
  unfold workersAIUsage; cbv zeta. cbn [buildProductUsage metrics].
  eexists. split; [reflexivity|]. cbn [buildMetric limit].
  rewrite H. split; [reflexivity|].
  unfold WORKERS_AI_LIMITS.neuronsPerDay.
  change 280000 with (10000 * inject_Z 28).
  change 310000 with (10000 * inject_Z 31).
  split; apply Qmult_le_l; try reflexivity; rewrite <- Zle_Qle; lia.
Qed.
Section FieldFolds.

Context {T : Type}.
Variable getter : T -> option number.

Lemma maxField_from (items : list T) (acc : number) :
  let r := reduce (fun max item => Math_max max (getter item ?? 0)%js) acc items in
  acc <= r /\
  (forall item, In item items -> (getter item ?? 0)%js <= r) /\
  (r == acc \/ exists item, In item items /\ r == (getter item ?? 0)%js).
Proof.
  unfold reduce. revert acc.
  induction items as [|x items IH]; intros acc; cbn [fold_left].
  - split; [apply Qle_refl|]. split; [intros ? []|]. left. reflexivity.
  - specialize (IH (Math_max acc (getter x ?? 0)%js)). cbv zeta in IH.
    destruct IH as (IH1 & IH2 & IH3).
    pose proof (Q.le_max_l acc (getter x ?? 0)%js) as Hl.
    pose proof (Q.le_max_r acc (getter x ?? 0)%js) as Hr.
    fold (Math_max acc (getter x ?? 0)%js) in Hl, Hr.
    split; [eapply Qle_trans; eassumption|].
    split.
    + intros item [<-|Hin]; [eapply Qle_trans; eassumption|now apply IH2].
    + destruct IH3 as [E|(item & Hin & E)].
      * destruct (Q.max_spec_le acc (getter x ?? 0)%js) as [[_ M]|[_ M]];
          fold (Math_max acc (getter x ?? 0)%js) in M.
        -- right. exists x. split; [now left|]. now rewrite E.
        -- left. now rewrite E.
      * right. exists item. split; [now right|exact E].
Qed.

End FieldFolds.

Lemma total_nonneg (xs : list number) :
  (forall x, In x xs -> 0 <= x) -> 0 <= Spec.total xs.
Proof.
  induction xs as [|x xs IH]; intros H; cbn [Spec.total]; [apply Qle_refl|].
  assert (0 <= x) by (apply H; now left).
  assert (0 <= Spec.total xs) by (apply IH; intros; apply H; now right).
  lra.
Qed.

(** X6.  [maxField] returns the largest of the values it reads, but never
    less than 0: the result is non-negative, bounds every value (an absent
    one counting as 0), and is either 0 or the value of some item; when no
    value is positive the result is 0. *)
Theorem maxField_is_clamped_maximum (T : Type) (items : list T)
    (getter : T -> option number) :
  0 <= maxField items getter /\
  (forall item, In item items -> (getter item ?? 0)%js <= maxField items getter) /\
  (maxField items getter == 0 \/
   exists item, In item items /\ maxField items getter == (getter item ?? 0)%js) /\
  ((forall item, In item items -> (getter item ?? 0)%js <= 0) ->
   maxField items getter == 0).
Proof.
  pose proof (maxField_from getter items 0) as H. cbv zeta in H.
  fold (maxField items getter) in H. destruct H as (H1 & H2 & H3).
  split; [exact H1|]. split; [exact H2|]. split; [exact H3|].
  intros Hneg. destruct H3 as [E|(item & Hin & E)]; [exact E|].
  apply Qle_antisym; [|exact H1]. rewrite E. now apply Hneg.
Qed.

Section R2Classes.

Lemma array_includes_In (arr : list string) (x : string) :
  array_includes arr x = true <-> In x arr.
Proof.
  unfold array_includes. rewrite existsb_exists. split.
  - intros (y & Hy & E). apply String.eqb_eq in E. now subst.
  - intros H. exists x. split; [exact H|apply String.eqb_refl].
Qed.

Lemma r2_classes_disjoint (action : string) :
  array_includes R2_CLASS_A_OPERATIONS action = true ->
  array_includes R2_CLASS_B_OPERATIONS action = false.
Proof.
  intros H. apply array_includes_In in H. unfold R2_CLASS_A_OPERATIONS in H.
  cbn [In] in H.
  repeat (destruct H as [<-|H]; [reflexivity|]). destruct H.
Qed.

Lemma r2_step_totals (t : number * number) (op : R2OperationsGroup) :
  r2_step t op
  = (if Derived.in_class_A op then fst t + op.(r2_requests) else fst t,
     if Derived.in_class_B op then snd t + op.(r2_requests) else snd t).
Proof.
  unfold r2_step, Derived.in_class_A, Derived.in_class_B. destruct t as [a b].
  destruct (array_includes R2_CLASS_A_OPERATIONS (r2_actionType op)) eqn:EA.
  - now rewrite (r2_classes_disjoint _ EA).
  - now destruct (array_includes R2_CLASS_B_OPERATIONS (r2_actionType op)).
Qed.

Lemma r2_fold_totals (ops : list R2OperationsGroup) (t : number * number) :
  fst (fold_left r2_step ops t)
    == fst t + Derived.requests_of Derived.in_class_A ops /\
  snd (fold_left r2_step ops t)
    == snd t + Derived.requests_of Derived.in_class_B ops.
Proof.
  revert t. induction ops as [|op ops IH]; intros t.
  - unfold Derived.requests_of. cbn. split; ring.
  - cbn [fold_left]. destruct (IH (r2_step t op)) as [IH1 IH2].
    rewrite IH1, IH2, r2_step_totals. unfold Derived.requests_of.
    cbn [fst snd filter].
    destruct (Derived.in_class_A op), (Derived.in_class_B op);
      cbn [map Spec.total]; split; ring.
Qed.

Lemma requests_of_Permutation (sel : R2OperationsGroup -> bool)
    (ops ops' : list R2OperationsGroup) :
  Permutation ops ops' ->
  Derived.requests_of sel ops == Derived.requests_of sel ops'.
Proof.
  intros HP. unfold Derived.requests_of. apply total_Permutation.
  apply Permutation_map.
  induction HP as [|x l l' _ IH|x y l|l l' l'' _ IH1 _ IH2]; cbn [filter].
  - constructor.
  - destruct (sel x); [now constructor|exact IH].
  - destruct (sel x), (sel y); try reflexivity. apply perm_swap.
  - now transitivity (filter sel l').
Qed.

End R2Classes.

(** X8.  The R2 loop sorts each operation group by exact membership of its
    action type in one of two tables that share no name: the class A total
    is the request sum of the groups named in the first table, the class B
    total that of the groups named in the second, a group named in neither
    changes nothing, and the totals do not depend on the order of the
    groups. *)
Theorem r2_operations_classified (operations : list R2OperationsGroup) :
  (forall action,
     array_includes R2_CLASS_A_OPERATIONS action = true ->
     array_includes R2_CLASS_B_OPERATIONS action = false) /\
  fst (fold_left r2_step operations (0, 0))
    == Derived.requests_of Derived.in_class_A operations /\
  snd (fold_left r2_step operations (0, 0))
    == Derived.requests_of Derived.in_class_B operations /\
  (forall t op,
     Derived.in_class_A op = false -> Derived.in_class_B op = false ->
     r2_step t op = t) /\
  (forall reordered, Permutation operations reordered ->
     fst (fold_left r2_step reordered (0, 0))
       == fst (fold_left r2_step operations (0, 0)) /\
     snd (fold_left r2_step reordered (0, 0))
       == snd (fold_left r2_step operations (0, 0))).
Proof.
  destruct (r2_fold_totals operations (0, 0)) as [HA HB]. cbn [fst snd] in *.
  split; [exact r2_classes_disjoint|].
  split; [rewrite HA; ring|]. split; [rewrite HB; ring|].
  split.
  - intros t op EA EB. rewrite r2_step_totals, EA, EB. now destruct t.
  - intros reordered HP.
    destruct (r2_fold_totals reordered (0, 0)) as [HA' HB'].
    cbn [fst snd] in *. rewrite HA, HB, HA', HB'.
    split; apply Qplus_comp; try reflexivity;
      apply requests_of_Permutation; now symmetry.
Qed.
(** ** Outcomes of the aggregators *)

Section AggregatorOutcomes.

Lemma fetchGraphQL_unconfigured {T} (e : Env) (r : Reply T) :
  falsy e.(CLOUDFLARE_ACCOUNT_ID) || falsy e.(CLOUDFLARE_API_TOKEN) = true ->
  fetchGraphQL e r = Throw Derived.dev_vars_missing.
Proof. intros H. unfold fetchGraphQL. now rewrite H. Qed.

Lemma fetchGraphQL_configured {T} (e : Env) (r : Reply T) :
  Spec.configured e ->
  fetchGraphQL e r
  = match r with
    | Payload accounts => Normal {| accounts := accounts |}
    | _ => Throw (Derived.reply_error r ?? "")%js
    end.
Proof.
  intros [Ha Ht]. unfold fetchGraphQL. rewrite Ha, Ht. cbn [orb].
  destruct r; reflexivity.
Qed.

Lemma getAccountId_unconfigured (e : Env) :
  falsy e.(CLOUDFLARE_ACCOUNT_ID) = true ->
  getAccountId e = Throw "Missing CLOUDFLARE_ACCOUNT_ID".
Proof.
  unfold getAccountId, falsy.
  destruct (CLOUDFLARE_ACCOUNT_ID e) as [[|c rest]|];
    intros H; try discriminate H; reflexivity.
Qed.

(** Each aggregator is its case analysis. *)
Lemma aggregator_outcome (s : Slot) (w : World) :
  aggregator s w = Derived.outcome_of s w.
Proof.
  unfold Derived.outcome_of.
  destruct (falsy (CLOUDFLARE_ACCOUNT_ID (env w))) eqn:Ea.
  { pose proof (getAccountId_unconfigured _ Ea) as Hid.
    destruct s; cbn [aggregator];
      unfold fetchR2Usage, fetchWorkersUsage, fetchKVUsage, fetchD1Usage,
        fetchImagesUsage, fetchWorkersAIUsage, fetchVectorizeUsage;
      now rewrite Hid. }
  destruct (getAccountId_configured _ Ea) as [id Hid].
  destruct (falsy (CLOUDFLARE_API_TOKEN (env w))) eqn:Et.
  { assert (Hu : forall T (r : Reply T),
               fetchGraphQL (env w) r = Throw Derived.dev_vars_missing).
    { intros. apply fetchGraphQL_unconfigured. now rewrite Ea, Et. }
    destruct s; cbn [aggregator];
      unfold fetchR2Usage, fetchWorkersUsage, fetchKVUsage, fetchD1Usage,
        fetchImagesUsage, fetchWorkersAIUsage, fetchVectorizeUsage;
      rewrite Hid, !Hu; cbn [bind Promise_all2];
      now destruct (first_wins w _) || reflexivity. }
  assert (Hc : Spec.configured (env w)) by (split; assumption).
  destruct s; cbn [aggregator Derived.query_errors Derived.usage_of];
    unfold fetchR2Usage, fetchWorkersUsage, fetchKVUsage, fetchD1Usage,
      fetchImagesUsage, fetchWorkersAIUsage, fetchVectorizeUsage;
    rewrite Hid, !(fetchGraphQL_configured _ _ Hc); cbn [bind];
    repeat match goal with
      | |- context [match ?r with FetchRejected _ => _ | _ => _ end] =>
          is_var r; fail 1
      | |- context [Derived.reply_error ?r] =>
          destruct r; cbn [Derived.reply_error Derived.payload_groups nullish]
      end;
    cbn [Promise_all2 bind Derived.first_error];
    try reflexivity; now destruct (first_wins w _).
Qed.

End AggregatorOutcomes.
(** X9.  An aggregator returns a product exactly when both credentials are
    set and every query it sends is answered with a payload; the product is
    then the usage computed from the delivered groups, never [null].
    Without an account id it throws "Missing CLOUDFLARE_ACCOUNT_ID"; with an
    account id but no API token it throws the [.dev.vars] message; otherwise
    a failure carries the message of one of its failing queries. *)
Theorem aggregator_succeeds_or_reports (s : Slot) (w : World) :
  (falsy w.(env).(CLOUDFLARE_ACCOUNT_ID) = true ->
     aggregator s w = Throw "Missing CLOUDFLARE_ACCOUNT_ID") /\
  (falsy w.(env).(CLOUDFLARE_ACCOUNT_ID) = false ->
   falsy w.(env).(CLOUDFLARE_API_TOKEN) = true ->
     aggregator s w = Throw Derived.dev_vars_missing) /\
  (Spec.configured w.(env) ->
   forall e, aggregator s w = Throw e ->
     In (Some e) (Derived.query_errors w.(upstream) s)) /\
  ((exists r, aggregator s w = Normal r) <->
   Spec.configured w.(env) /\
   Forall (fun e => e = None) (Derived.query_errors w.(upstream) s)) /\
  (forall r, aggregator s w = Normal r -> r = Some (Derived.usage_of s w)).
Proof.
  rewrite aggregator_outcome. unfold Derived.outcome_of, Spec.configured.
  destruct (falsy (CLOUDFLARE_ACCOUNT_ID (env w))) eqn:Ea;
    [repeat split; try discriminate; try reflexivity;
       intros; try destruct H as [? ?]; intuition discriminate|].
  destruct (falsy (CLOUDFLARE_API_TOKEN (env w))) eqn:Et;
    [repeat split; try discriminate; try reflexivity;
       intros; try destruct H as [? ?]; intuition discriminate|].
  split; [discriminate|]. split; [discriminate|].
  assert (Hq : match Derived.first_error (first_wins w s)
                       (Derived.query_errors (upstream w) s) with
               | Some e => In (Some e) (Derived.query_errors (upstream w) s)
               | None => Forall (fun e => e = None)
                           (Derived.query_errors (upstream w) s)
               end).
  { destruct s; cbn [Derived.query_errors Derived.first_error];
      repeat match goal with
        | |- context [Derived.reply_error ?r] => destruct (Derived.reply_error r)
        end;
      try destruct (first_wins w _); cbn; auto 6. }
  destruct (Derived.first_error _ _) as [e|] eqn:Ef.
  - split; [intros _ e' H; injection H as <-; exact Hq|].
    split; [|discriminate]. split; [intros [r H]; discriminate H|].
    intros [_ HF]. exfalso. rewrite Forall_forall in HF.
    specialize (HF _ Hq). discriminate HF.
  - split; [discriminate|]. split.
    + split; [intros _; split; [split; reflexivity|exact Hq]|].
      intros _. eexists. reflexivity.
    + intros r H. now injection H as <-.
Qed.
(** ** Invariants of the products the aggregators build *)

Section ProductInvariants.

Lemma buildMetric_percentage_rule (input : MetricInput) (cost : number) :
  Derived.percentage_rule (buildMetric input cost).
Proof.
  destruct input as [n c l u r]. unfold Derived.percentage_rule; cbn.
  split; intros H; [rewrite gt0_true|rewrite gt0_false]; (reflexivity || exact H).
Qed.

Lemma scaled_sign (a k : number) : 0 < k -> (0 < a * k <-> 0 < a).
Proof.
  intros Hk. split; intros H.
  - apply (Qmult_lt_r 0 a k Hk). now rewrite Qmult_0_l.
  - apply (Qmult_lt_r 0 a k Hk) in H. now rewrite Qmult_0_l in H.
Qed.

Lemma scaled_overage (c l k : number) :
  0 < k ->
  0 <= Math_max 0 (c - l) * k /\ (0 < Math_max 0 (c - l) * k <-> l < c).
Proof.
  intros Hk. split.
  - apply Qmult_le_0_compat; [apply Math_max_0_nonneg|now apply Qlt_le_weak].
  - rewrite (scaled_sign _ k Hk). unfold Math_max.
    destruct (Q.max_spec 0 (c - l)) as [[H1 H2]|[H1 H2]]; rewrite H2; lra.
Qed.

Lemma over_100_percent (c l : number) :
  0 < l -> (100 < c / l * 100 <-> l < c).
Proof.
  intros Hl.
  assert (Hk : 0 < 100 / l).
  { apply Qlt_shift_div_l; [exact Hl|]. rewrite Qmult_0_l. reflexivity. }
  assert (E1 : c / l * 100 == c * (100 / l)) by (field; lra).
  assert (E2 : 100 == l * (100 / l)) by (field; lra).
  rewrite E1. rewrite E2 at 1. apply Qmult_lt_r. exact Hk.
Qed.

(** A metric built from a positive limit and an overage scaled by a
    positive factor has a free allowance. *)
Lemma allowance_metric_built (n u rt : string) (c l k cost : number) :
  0 < l -> 0 < k -> cost == Math_max 0 (c - l) * k ->
  Derived.allowance_metric
    (buildMetric {| mi_name := n; mi_current := c; mi_limit := l;
                    mi_unit := u; mi_rate := rt |} cost).
Proof.
  intros Hl Hk Hc. unfold Derived.allowance_metric; cbn.
  rewrite (gt0_true l Hl). destruct (scaled_overage c l k Hk) as [H1 H2].
  rewrite Hc. split; [exact Hl|]. split; [exact H1|]. split; [exact H2|].
  rewrite H2. symmetry. now apply over_100_percent.
Qed.

Lemma calculateOverage_scaled (c l r : number) :
  calculateOverage c l r == Math_max 0 (c - l) * (r / 1000000).
Proof. unfold calculateOverage; cbv zeta. field. Qed.

Lemma calculateStorageOverage_scaled (c l r : number) :
  calculateStorageOverage c l r == Math_max 0 (c - l) * r.
Proof. reflexivity. Qed.

Lemma calculatePer1KCost_scaled (c l r : number) :
  calculatePer1KCost c l r == Math_max 0 (c - l) * (r / 1000).
Proof. unfold calculatePer1KCost; cbv zeta. field. Qed.

Lemma monthlyFreeNeurons_pos (tza now : Z) :
  0 < WORKERS_AI_LIMITS.neuronsPerDay * inject_Z (daysInMonth tza now).
Proof.
  apply Qmult_lt_0_compat; [reflexivity|].
  change 0 with (inject_Z 0). rewrite <- Zlt_Qlt.
  pose proof (daysInMonth_pos tza now). lia.
Qed.

End ProductInvariants.

Ltac open_usage :=
  cbn [Derived.usage_of];
  unfold r2Usage, workersUsage, kvUsage, d1Usage, imagesUsage,
    workersAIUsage, vectorizeUsage;
  repeat match goal with
    | |- context [fold_left r2_step ?l ?i] =>
        destruct (fold_left r2_step l i)
    | |- context [fold_left workers_step ?l ?i] =>
        destruct (fold_left workers_step l i)
    | |- context [kv_totals ?l] => destruct (kv_totals l)
    end;
  cbv zeta.

Ltac allowance_built :=
  first
    [ eapply allowance_metric_built;
      [| |apply calculateOverage_scaled]; reflexivity
    | eapply allowance_metric_built;
      [| |apply calculateStorageOverage_scaled]; reflexivity
    | eapply allowance_metric_built;
      [apply monthlyFreeNeurons_pos| |apply calculatePer1KCost_scaled];
      reflexivity ].

Section ProductInvariants2.

Lemma usage_of_shape (s : Slot) (w : World) :
  (Derived.usage_of s w).(product) = service_name s /\
  List.length (Derived.usage_of s w).(metrics) = Derived.metric_count s /\
  (Derived.usage_of s w).(totalOverageCost)
    == Spec.total (map overageCost (Derived.usage_of s w).(metrics)) /\
  Forall Derived.percentage_rule (Derived.usage_of s w).(metrics).
Proof.
  destruct s; open_usage; cbn [buildProductUsage product metrics totalOverageCost];
    (split; [reflexivity|]); (split; [reflexivity|]);
    (split; [apply reduce_sum|]);
    repeat (apply Forall_cons; [apply buildMetric_percentage_rule|]);
    apply Forall_nil.
Qed.

Lemma usage_of_allowance (s : Slot) (w : World) :
  s <> Images ->
  Forall Derived.allowance_metric (Derived.usage_of s w).(metrics).
Proof.
  intros Hs. destruct s; try (now elim Hs); open_usage;
    cbn [buildProductUsage metrics];
    repeat (apply Forall_cons; [allowance_built|]); apply Forall_nil.
Qed.

End ProductInvariants2.
Lemma aggregator_Normal_usage (s : Slot) (w : World)
    (r : option ProductUsage) :
  aggregator s w = Normal r -> r = Some (Derived.usage_of s w).
Proof.
  rewrite aggregator_outcome. unfold Derived.outcome_of.
  destruct (falsy (CLOUDFLARE_ACCOUNT_ID (env w))); [discriminate|].
  destruct (falsy (CLOUDFLARE_API_TOKEN (env w))); [discriminate|].
  destruct (Derived.first_error _ _); [discriminate|].
  intros H. now injection H as <-.
Qed.

(** X10.  Whatever an aggregator returns is a well-formed product: it is
    not [null], it carries the label under which [$fetchAllUsage] files the
    aggregator's errors, it has the fixed number of metrics of its product,
    its [totalOverageCost] is the sum of its metrics' overage costs, and
    every metric obeys the percentage rule. *)
Theorem aggregator_product_wellformed (s : Slot) (w : World)
    (r : option ProductUsage) :
  aggregator s w = Normal r ->
  exists p,
    r = Some p /\
    p.(product) = service_name s /\
    List.length p.(metrics) = Derived.metric_count s /\
    p.(totalOverageCost) == Spec.total (map overageCost p.(metrics)) /\
    Forall Derived.percentage_rule p.(metrics).
Proof.
  intros H. apply aggregator_Normal_usage in H. subst r.
  eexists. split; [reflexivity|]. apply usage_of_shape.
Qed.

Lemma aggregator_product_wellformed_witness :
  exists p,
    aggregator Workers (Examples.world Examples.upstream_partial)
      = Normal (Some p) /\
    p.(product) = "Workers" /\
    List.length p.(metrics) = 2%nat /\
    p.(totalOverageCost) == Spec.total (map overageCost p.(metrics)) /\
    Forall Derived.percentage_rule p.(metrics).
Proof.
  destruct (aggregator_product_wellformed Workers
              (Examples.world Examples.upstream_partial)
              (Some (Derived.usage_of Workers
                       (Examples.world Examples.upstream_partial))))
    as (p & Hp & H).
  - reflexivity.
  - exists p. split; [injection Hp as <-; reflexivity|exact H].
Defined.

(** X11.  Every metric of every product other than Images has a free
    allowance: its limit is positive, its overage cost is never negative,
    and the cost is positive exactly when the current value exceeds the
    limit, which is exactly when the percentage exceeds 100. *)
Theorem allowance_metrics_cost_iff_over_limit (s : Slot) (w : World)
    (p : ProductUsage) :
  s <> Images ->
  aggregator s w = Normal (Some p) ->
  Forall Derived.allowance_metric p.(metrics).
Proof.
  intros Hs H. apply aggregator_Normal_usage in H. injection H as ->.
  now apply usage_of_allowance.
Qed.

Lemma allowance_metrics_cost_iff_over_limit_witness :
  Forall Derived.allowance_metric
    (Derived.usage_of Workers (Examples.world Examples.upstream_partial)).(metrics).
Proof.
  apply (allowance_metrics_cost_iff_over_limit Workers
           (Examples.world Examples.upstream_partial)).
  - discriminate.
  - reflexivity.
Defined.

(** X12.  Images is billed from the first request and never measured
    against a limit: its single metric has limit 0 and percentage 0 whatever
    the traffic, its current value is the sum of the delivered request
    counts, and its cost, which is also the product total, is one dollar
    per 100,000 requests. *)
Theorem images_is_pay_per_use (images : list ImagesGroup) :
  exists m,
    (imagesUsage images).(metrics) = [m] /\
    m.(limit) = 0 /\
    m.(percentage) = 0 /\
    m.(current)
      == Spec.total (map (fun g => (g.(img_requests) ?? 0)%js) images) /\
    m.(overageCost) == m.(current) / 100000 /\
    (imagesUsage images).(totalOverageCost) == m.(current) / 100000 /\
    ((forall g, In g images -> 0 <= (g.(img_requests) ?? 0)%js) ->
       0 <= m.(overageCost)).
Proof.
  unfold imagesUsage; cbv zeta. cbn [buildProductUsage metrics totalOverageCost].
  eexists. split; [reflexivity|]. cbn [buildMetric limit percentage current overageCost].
  split; [reflexivity|]. split; [reflexivity|].
  split; [apply sumField_total|].
  assert (E : calculatePer100KCost
                (sumField images (fun i => img_requests i))
                IMAGES_LIMITS.deliveredPer100K
              == sumField images (fun i => img_requests i) / 100000).
  { unfold calculatePer100KCost, IMAGES_LIMITS.deliveredPer100K. field. }
  split; [exact E|]. split.
  - unfold reduce; cbn [fold_left]. rewrite Qplus_0_l. exact E.
  - intros Hpos. eapply Qle_trans; [|apply Qle_lteq; right; symmetry; exact E].
    unfold Qdiv.
    apply Qmult_le_0_compat; [|discriminate].
    rewrite sumField_total. apply total_nonneg.
    intros x Hx. apply in_map_iff in Hx. destruct Hx as (g & <- & Hg).
    now apply Hpos.
Qed.
(** ** The summary over the seven aggregators *)

Section SummaryOfAggregators.

Local Open Scope list_scope.

Variable w : World.

Let call : Slot -> Completion (option ProductUsage) :=
  fun s => aggregator s w.

Lemma aggregator_cases (s : Slot) :
  (exists e, aggregator s w = Throw e) \/
  aggregator s w = Normal (Some (Derived.usage_of s w)).
Proof.
  destruct (aggregator s w) as [r|e] eqn:E.
  - right. now rewrite (aggregator_Normal_usage s w r E).
  - left. now exists e.
Qed.

Lemma settled_null_iff (s : Slot) :
  Spec.settled_value call s = None <-> exists e, aggregator s w = Throw e.
Proof.
  unfold Spec.settled_value, call.
  destruct (aggregator_cases s) as [[e ->]| ->].
  - split; [intros _; now exists e|reflexivity].
  - split; [discriminate|intros [e H]; discriminate H].
Qed.

Lemma pushed_nonempty_iff (s : Slot) :
  Spec.pushed call s <> [] <-> exists e, aggregator s w = Throw e.
Proof.
  unfold Spec.pushed, call.
  destruct (aggregator_cases s) as [[e ->]| ->].
  - split; [intros _; now exists e|discriminate].
  - split; [intros H; now elim H|intros [e H]; discriminate H].
Qed.

Lemma pushed_length (s : Slot) :
  List.length (Spec.pushed call s)
  = if match Spec.settled_value call s with None => true | Some _ => false end
    then 1%nat else 0%nat.
Proof.
  unfold Spec.pushed, Spec.settled_value, call.
  destruct (aggregator_cases s) as [[e ->]| ->]; reflexivity.
Qed.

Lemma flat_map_length_filter {A B} (f : A -> list B) (g : A -> bool)
    (l : list A) :
  (forall a, List.length (f a) = if g a then 1%nat else 0%nat) ->
  List.length (flat_map f l) = List.length (filter g l).
Proof.
  intros H. induction l as [|a l IH]; [reflexivity|].
  cbn [flat_map filter]. rewrite length_app, H, IH.
  now destruct (g a).
Qed.

(** The run of [$fetchAllUsage] over the aggregators of [w]. *)
Lemma fetchAllUsage_run :
  falsy w.(env).(CLOUDFLARE_ACCOUNT_ID) = false ->
  exists d,
    fetchAllUsage w = Normal d /\
    (forall s, slot d s = Spec.settled_value call s) /\
    (forall s, Spec.errors_of s d.(errors) = Spec.pushed call s) /\
    Permutation d.(errors) (Spec.failures call) /\
    d.(totalEstimatedCost)
      == WORKERS_PAID_LIMITS.baseCost
         + Spec.total (map totalOverageCost (Spec.present d)).
Proof.
  intros Hid. unfold fetchAllUsage.
  destruct (fetchAllUsage_from_run call (env w) (tza w) (now w)
              (settle_time w) Hid) as (d & Hd & Hs & He & Ht & _).
  exists d. split; [exact Hd|]. split; [exact Hs|].
  split; [|split; [|exact Ht]].
  - intros s. rewrite He. apply errors_of_flat_map;
      [apply settle_order_NoDup|apply settle_order_In].
  - rewrite He. unfold Spec.failures.
    apply Permutation_flat_map, settle_order_Permutation.
Qed.

End SummaryOfAggregators.

(** X13.  In a summary of [$fetchAllUsage] a product is [null] exactly when
    its aggregator failed, and exactly then the error list holds an entry
    with its label; so the number of errors equals the number of [null]
    products, and the dashboard's "No usage data available" message, shown
    when every product is [null] and there is no error, never appears. *)
Theorem null_product_iff_error (w : World) :
  falsy w.(env).(CLOUDFLARE_ACCOUNT_ID) = false ->
  exists d,
    fetchAllUsage w = Normal d /\
    (forall s, slot d s = None <-> exists e, aggregator s w = Throw e) /\
    (forall s, slot d s = None <-> Spec.errors_of s d.(errors) <> []) /\
    List.length d.(errors) = Derived.null_slots d /\
    (UI.Dashboard d).(UI.emptyState) = false.
Proof.
  intros Hid.
  destruct (fetchAllUsage_run w Hid) as (d & Hd & Hs & He & HP & _).
  exists d. split; [exact Hd|].
  assert (H1 : forall s, slot d s = None <-> exists e, aggregator s w = Throw e).
  { intros s. rewrite Hs. apply settled_null_iff. }
  assert (H2 : forall s, slot d s = None <-> Spec.errors_of s d.(errors) <> []).
  { intros s. rewrite He, H1. symmetry. apply pushed_nonempty_iff. }
  split; [exact H1|]. split; [exact H2|]. split.
  - rewrite (Permutation_length HP). unfold Spec.failures, Derived.null_slots.
    apply flat_map_length_filter. intros s. rewrite Hs. apply pushed_length.
  - unfold UI.Dashboard; cbn [UI.emptyState].
    destruct (List.length (errors d) =? 0)%nat eqn:E;
      [|now rewrite andb_false_r].
    apply Nat.eqb_eq in E. apply length_zero_iff_nil in E.
    assert (Hw : slot d Workers <> None).
    { intros Hn. apply H2 in Hn. apply Hn. now rewrite E. }
    cbn [slot] in Hw. destruct (workers d); [reflexivity|now elim Hw].
Qed.

Lemma null_product_iff_error_witness :
  exists d,
    fetchAllUsage (Examples.world Examples.upstream_partial) = Normal d /\
    List.length d.(errors) = Derived.null_slots d /\
    (UI.Dashboard d).(UI.emptyState) = false.
Proof.
  destruct (null_product_iff_error (Examples.world Examples.upstream_partial))
    as (d & Hd & _ & _ & Hl & He).
  - reflexivity.
  - exists d. auto.
Defined.
(** X14.  With an account id but no API token, [$fetchAllUsage] does not
    fail: every aggregator is rejected by [fetchGraphQL], so the summary has
    all seven products [null], seven errors (one per label, each with the
    [.dev.vars] message) and the base fee as its total. *)
Theorem missing_token_gives_seven_errors (w : World) :
  falsy w.(env).(CLOUDFLARE_ACCOUNT_ID) = false ->
  falsy w.(env).(CLOUDFLARE_API_TOKEN) = true ->
  exists d,
    fetchAllUsage w = Normal d /\
    (forall s, slot d s = None) /\
    Permutation d.(errors)
      (map (fun s => {| service := service_name s;
                        message := Derived.dev_vars_missing |}) all_slots) /\
    d.(totalEstimatedCost) == WORKERS_PAID_LIMITS.baseCost.
Proof.
  intros Ha Ht.
  assert (Hagg : forall s, aggregator s w = Throw Derived.dev_vars_missing).
  { intros s. rewrite aggregator_outcome. unfold Derived.outcome_of.
    now rewrite Ha, Ht. }
  destruct (fetchAllUsage_run w Ha) as (d & Hd & Hs & _ & HP & Hc).
  exists d. split; [exact Hd|].
  assert (Hnull : forall s, slot d s = None).
  { intros s. rewrite Hs. unfold Spec.settled_value. now rewrite Hagg. }
  split; [exact Hnull|]. split.
  - rewrite HP. unfold Spec.failures, Spec.pushed, all_slots.
    cbn [flat_map map app]. now rewrite !Hagg.
  - rewrite Hc. unfold Spec.present, all_slots. cbn [flat_map].
    rewrite !Hnull. cbn [app map Spec.total]. ring.
Qed.

Lemma missing_token_gives_seven_errors_witness :
  exists d,
    fetchAllUsage
      {| env := {| CLOUDFLARE_ACCOUNT_ID := Some "acc";
                   CLOUDFLARE_API_TOKEN := None |};
         upstream := Examples.upstream_empty;
         tza := 0; now := Examples.mid_march_2024;
         first_wins := fun _ => true; settle_time := fun _ => 0%nat |}
    = Normal d /\
    (forall s, slot d s = None) /\
    List.length d.(errors) = 7%nat.
Proof.
  destruct (missing_token_gives_seven_errors
              {| env := {| CLOUDFLARE_ACCOUNT_ID := Some "acc";
                           CLOUDFLARE_API_TOKEN := None |};
                 upstream := Examples.upstream_empty;
                 tza := 0; now := Examples.mid_march_2024;
                 first_wins := fun _ => true; settle_time := fun _ => 0%nat |})
    as (d & Hd & Hn & HP & _).
  - reflexivity.
  - reflexivity.
  - exists d. split; [exact Hd|]. split; [exact Hn|].
    now rewrite (Permutation_length HP).
Defined.

Section Totals.

Lemma images_cost_nonneg (images : list ImagesGroup) :
  (forall g, In g images -> 0 <= (g.(img_requests) ?? 0)%js) ->
  Forall (fun m => 0 <= m.(overageCost)) (imagesUsage images).(metrics).
Proof.
  intros Hpos. unfold imagesUsage; cbv zeta.
  cbn [buildProductUsage metrics]. constructor; [|constructor].
  cbn [buildMetric overageCost]. unfold calculatePer100KCost.
  apply per_unit_nonneg; [|reflexivity|discriminate].
  rewrite sumField_total. apply total_nonneg.
  intros x Hx. apply in_map_iff in Hx. destruct Hx as (g & <- & Hg).
  now apply Hpos.
Qed.

Lemma usage_of_costs_nonneg (s : Slot) (w : World) :
  Derived.images_nonneg w.(upstream) ->
  Forall (fun m => 0 <= m.(overageCost)) (Derived.usage_of s w).(metrics).
Proof.
  intros Himg. destruct (Slot_eqb s Images) eqn:Es.
  - apply Slot_eqb_eq in Es. subst s. cbn [Derived.usage_of].
    apply images_cost_nonneg. intros g Hg.
    destruct (imagesRequestsAdaptiveGroups (upstream w)) as [| | | |accounts]
      eqn:Er; cbn [Derived.payload_groups] in Hg; try now destruct Hg.
    now apply (Himg accounts g Er).
  - assert (Hs : s <> Images) by (intros ->; discriminate Es).
    pose proof (usage_of_allowance s w Hs) as H.
    rewrite Forall_forall in *. intros m Hm.
    now destruct (H m Hm) as (_ & Hc & _).
Qed.

Lemma usage_of_total_nonneg (s : Slot) (w : World) :
  Derived.images_nonneg w.(upstream) ->
  0 <= (Derived.usage_of s w).(totalOverageCost).
Proof.
  intros Himg. destruct (usage_of_shape s w) as (_ & _ & Ht & _).
  eapply Qle_trans; [|apply Qle_lteq; right; symmetry; exact Ht].
  apply total_nonneg. intros x Hx. apply in_map_iff in Hx.
  destruct Hx as (m & <- & Hm).
  pose proof (usage_of_costs_nonneg s w Himg) as H.
  rewrite Forall_forall in H. now apply H.
Qed.

Lemma present_In (d : CloudflareUsageData) (p : ProductUsage) :
  In p (Spec.present d) <-> exists s, slot d s = Some p.
Proof.
  unfold Spec.present. rewrite in_flat_map. split.
  - intros (s & _ & H). exists s.
    destruct (slot d s) as [q|]; [|destruct H].
    destruct H as [->|[]]. reflexivity.
  - intros (s & H). exists s. split; [destruct s; cbn; tauto|].
    rewrite H. now left.
Qed.

Lemma slot_is_usage (w : World) (d : CloudflareUsageData) (s : Slot)
    (p : ProductUsage) :
  (forall s, slot d s = Spec.settled_value (fun s => aggregator s w) s) ->
  slot d s = Some p -> p = Derived.usage_of s w.
Proof.
  intros Hs H. rewrite Hs in H. unfold Spec.settled_value in H.
  destruct (aggregator_cases w s) as [[e E]|E]; rewrite E in H;
    [discriminate|]. now injection H as <-.
Qed.

Lemma total_zeros_list (xs : list number) :
  (forall x, In x xs -> x == 0) -> Spec.total xs == 0.
Proof.
  induction xs as [|x xs IH]; intros H; cbn [Spec.total]; [reflexivity|].
  rewrite (H x (or_introl eq_refl)), IH; [reflexivity|].
  intros y Hy. apply H. now right.
Qed.

(** Inside the limits nothing is owed, for every product. *)
Lemma usage_of_within_limits (s : Slot) (w : World) :
  (forall m, In m (Derived.usage_of s w).(metrics) ->
     0 <= m.(current) <= m.(limit)) ->
  (Derived.usage_of s w).(totalOverageCost) == 0.
Proof.
  intros Hm. destruct (usage_of_shape s w) as (_ & _ & Ht & _). rewrite Ht.
  apply total_zeros_list. intros x Hx. apply in_map_iff in Hx.
  destruct Hx as (m & <- & Hmin). specialize (Hm m Hmin).
  destruct (Slot_eqb s Images) eqn:Es.
  - apply Slot_eqb_eq in Es. subst s. cbn [Derived.usage_of] in Hmin.
    unfold imagesUsage in Hmin; cbv zeta in Hmin.
    cbn [buildProductUsage metrics] in Hmin.
    destruct Hmin as [<-|[]].
    cbn [buildMetric current limit overageCost] in *.
    unfold calculatePer100KCost.
    assert (E : sumField (Derived.payload_groups
                            (imagesRequestsAdaptiveGroups (upstream w)))
                  (fun i => img_requests i) == 0)
      by (apply Qle_antisym; lra).
    rewrite E. reflexivity.
  - assert (Hne : s <> Images) by (intros ->; discriminate Es).
    pose proof (usage_of_allowance s w Hne) as Ha.
    rewrite Forall_forall in Ha.
    destruct (Ha m Hmin) as (_ & Hge & Hiff & _).
    apply Qle_antisym; [|exact Hge].
    apply Qnot_lt_le. intros Hpos. apply Hiff in Hpos. lra.
Qed.

End Totals.

(** X15.  The estimate never falls below the base fee: when the account id
    is set and the image request counters delivered upstream are not
    negative, [totalEstimatedCost] is at least [baseCost], whatever the
    other counters are and whichever products failed. *)
Theorem total_at_least_base_fee (w : World) :
  falsy w.(env).(CLOUDFLARE_ACCOUNT_ID) = false ->
  Derived.images_nonneg w.(upstream) ->
  exists d,
    fetchAllUsage w = Normal d /\
    WORKERS_PAID_LIMITS.baseCost <= d.(totalEstimatedCost) /\
    (forall s p, slot d s = Some p -> 0 <= p.(totalOverageCost)).
Proof.
  intros Hid Himg.
  destruct (fetchAllUsage_run w Hid) as (d & Hd & Hs & _ & _ & Hc).
  exists d. split; [exact Hd|].
  assert (Hp : forall s p, slot d s = Some p -> 0 <= p.(totalOverageCost)).
  { intros s p H. rewrite (slot_is_usage w d s p Hs H).
    now apply usage_of_total_nonneg. }
  split; [|exact Hp].
  assert (0 <= Spec.total (map totalOverageCost (Spec.present d))).
  { apply total_nonneg. intros x Hx. apply in_map_iff in Hx.
    destruct Hx as (p & <- & Hin). apply present_In in Hin.
    destruct Hin as [s H]. now apply (Hp s). }
  rewrite Hc. lra.
Qed.

Lemma total_at_least_base_fee_witness :
  exists d,
    fetchAllUsage (Examples.world Examples.upstream_partial) = Normal d /\
    WORKERS_PAID_LIMITS.baseCost <= d.(totalEstimatedCost).
Proof.
  destruct (total_at_least_base_fee (Examples.world Examples.upstream_partial))
    as (d & Hd & Ht & _).
  - reflexivity.
  - intros accounts g E Hg. injection E as <-. destruct Hg.
  - exists d. auto.
Defined.

(** X16.  Within the free tier the bill is the base fee: if in a summary of
    [$fetchAllUsage] every metric of every product present has a current
    value between 0 and its limit, then no product has any overage and
    [totalEstimatedCost] equals [baseCost]. *)
Theorem within_limits_costs_base_fee (w : World) (d : CloudflareUsageData) :
  fetchAllUsage w = Normal d ->
  (forall s p m, slot d s = Some p -> In m p.(metrics) ->
     0 <= m.(current) <= m.(limit)) ->
  (forall s p, slot d s = Some p -> p.(totalOverageCost) == 0) /\
  d.(totalEstimatedCost) == WORKERS_PAID_LIMITS.baseCost.
Proof.
  intros Hd Hin.
  assert (Hid : falsy w.(env).(CLOUDFLARE_ACCOUNT_ID) = false).
  { destruct (falsy (CLOUDFLARE_ACCOUNT_ID (env w))) eqn:E; [|reflexivity].
    unfold fetchAllUsage in Hd.
    rewrite (fetchAllUsage_unconfigured _ _ _ _ _ E) in Hd. discriminate Hd. }
  destruct (fetchAllUsage_run w Hid) as (d' & Hd' & Hs & _ & _ & Hc).
  rewrite Hd in Hd'. injection Hd' as <-.
  assert (Hp : forall s p, slot d s = Some p -> p.(totalOverageCost) == 0).
  { intros s p H. pose proof (Hin s p) as Hm. specialize Hm with (1 := H).
    rewrite (slot_is_usage w d s p Hs H) in *.
    now apply usage_of_within_limits. }
  split; [exact Hp|]. rewrite Hc.
  assert (E : Spec.total (map totalOverageCost (Spec.present d)) == 0).
  { apply total_zeros_list. intros x Hx. apply in_map_iff in Hx.
    destruct Hx as (p & <- & Hpin). apply present_In in Hpin.
    destruct Hpin as [s H]. now apply (Hp s). }
  rewrite E. ring.
Qed.

Lemma within_limits_costs_base_fee_witness :
  exists d,
    fetchAllUsage (Examples.world Examples.upstream_empty) = Normal d /\
    d.(totalEstimatedCost) == WORKERS_PAID_LIMITS.baseCost.
Proof.
  destruct (fetchAllUsage_run (Examples.world Examples.upstream_empty) eq_refl)
    as (d & Hd & Hs & _).
  exists d. split; [exact Hd|].
  apply (within_limits_costs_base_fee
           (Examples.world Examples.upstream_empty) d Hd).
  intros s p m Hsl Hm.
  rewrite (slot_is_usage _ d s p Hs Hsl) in Hm.
  destruct s; vm_compute in Hm;
    repeat (destruct Hm as [<-|Hm]; [split; vm_compute; discriminate|]);
    destruct Hm.
Defined.
(** ** The dashboard over a summary *)

Section DashboardFacts.

Lemma gt_true (x y : number) : UI.gt x y = true <-> y < x.
Proof.
  unfold UI.gt. rewrite negb_true_iff. split; intros H.
  - apply Qnot_le_lt. intros Hle. apply Qle_bool_iff in Hle. congruence.
  - destruct (Qle_bool x y) eqn:E; [|reflexivity].
    apply Qle_bool_iff in E. lra.
Qed.

Lemma ge_true (x y : number) : UI.ge x y = true <-> y <= x.
Proof. unfold UI.ge. apply Qle_bool_iff. Qed.

Lemma lt_true (x y : number) : UI.lt x y = true <-> x < y.
Proof.
  unfold UI.lt. rewrite negb_true_iff. split; intros H.
  - apply Qnot_le_lt. intros Hle. apply Qle_bool_iff in Hle. congruence.
  - destruct (Qle_bool y x) eqn:E; [|reflexivity].
    apply Qle_bool_iff in E. lra.
Qed.

Lemma bool_eq_iff (a b : bool) : (a = true <-> b = true) -> a = b.
Proof. destruct a, b; intuition congruence. Qed.

(** The seven null-coalesced costs, added, are the costs of the products
    present. *)
Lemma present_total (d : CloudflareUsageData) :
  Spec.total (map totalOverageCost (Spec.present d))
  == Spec.total
       (map (fun item => (optchain item totalOverageCost ?? 0)%js)
          [d.(r2); d.(workers); d.(kv); d.(d1); d.(images); d.(ai);
           d.(vectorize)]).
Proof. symmetry. apply coalesced_costs. Qed.

End DashboardFacts.

(** X17.  The note "Includes ... in overage charges" of the cost summary
    adds the overage of R2, Workers and KV only, while the total it prints
    is the summary's [totalEstimatedCost]: the total is the base fee plus the
    noted amount plus the overage of D1, Images, Workers AI and Vectorize,
    so with non-negative image counters the note never overstates the
    overage, and it is exact only when those four owe nothing. *)
Theorem cost_summary_note_counts_three_products (w : World)
    (d : CloudflareUsageData) :
  fetchAllUsage w = Normal d ->
  let v := UI.CostSummary d in
  let cost := fun item : option ProductUsage =>
                (optchain item totalOverageCost ?? 0)%js in
  let noted := cost d.(r2) + cost d.(workers) + cost d.(kv) in
  let unnoted := cost d.(d1) + cost d.(images) + cost d.(ai)
                 + cost d.(vectorize) in
  v.(UI.totalLine) == v.(UI.baseLine) + noted + unnoted /\
  (forall x, v.(UI.includesNote) = Some x <-> x = noted /\ 0 < noted) /\
  (Derived.images_nonneg w.(upstream) ->
     0 <= unnoted /\ v.(UI.baseLine) + noted <= v.(UI.totalLine)).
Proof.
  intros Hd v cost noted unnoted.
  assert (Hid : falsy w.(env).(CLOUDFLARE_ACCOUNT_ID) = false).
  { destruct (falsy (CLOUDFLARE_ACCOUNT_ID (env w))) eqn:E; [|reflexivity].
    unfold fetchAllUsage in Hd.
    rewrite (fetchAllUsage_unconfigured _ _ _ _ _ E) in Hd. discriminate Hd. }
  destruct (fetchAllUsage_run w Hid) as (d' & Hd' & Hs & _ & _ & Hc).
  rewrite Hd in Hd'. injection Hd' as <-.
  assert (Ht : v.(UI.totalLine) == v.(UI.baseLine) + noted + unnoted).
  { subst v. cbn [UI.CostSummary UI.totalLine UI.baseLine].
    rewrite Hc, present_total. cbn [map Spec.total].
    subst noted unnoted cost. cbv beta. ring. }
  split; [exact Ht|]. split.
  - intros x. subst v. cbn [UI.CostSummary UI.includesNote].
    unfold UI.shown_if_positive.
    change (UI.gt _ 0) with (UI.gt noted 0).
    change (Some (_ + _ + _)) with (Some noted).
    destruct (UI.gt noted 0) eqn:E.
    + apply gt_true in E. split.
      * intros H. injection H as <-. now split.
      * intros [-> _]. reflexivity.
    + split; [discriminate|]. intros [_ H]. apply gt_true in H. congruence.
  - intros Himg.
    assert (Hn : forall s, 0 <= cost (slot d s)).
    { intros s. unfold cost. destruct (slot d s) as [p|] eqn:E; cbn.
      - rewrite (slot_is_usage w d s p Hs E).
        now apply usage_of_total_nonneg.
      - apply Qle_refl. }
    pose proof (Hn D1) as H1. pose proof (Hn Images) as H2.
    pose proof (Hn AI) as H3. pose proof (Hn Vectorize) as H4.
    cbn [slot] in H1, H2, H3, H4.
    assert (0 <= unnoted) by (subst unnoted; lra).
    split; [assumption|]. rewrite Ht. lra.
Qed.

Lemma cost_summary_note_counts_three_products_witness :
  exists d,
    fetchAllUsage (Examples.world Examples.upstream_partial) = Normal d /\
    (UI.CostSummary d).(UI.totalLine)
      == (UI.CostSummary d).(UI.baseLine) + 3.
Proof.
  destruct (fetchAllUsage (Examples.world Examples.upstream_partial))
    as [d|e] eqn:Hd; [|discriminate Hd].
  exists d. split; [reflexivity|].
  destruct (cost_summary_note_counts_three_products
              (Examples.world Examples.upstream_partial) d Hd) as (Ht & _).
  rewrite Ht. vm_compute in Hd. injection Hd as <-. reflexivity.
Defined.
Section CardFacts.

Lemma getProgressColor_red (pct : number) :
  UI.getProgressColor pct = "bg-red-500" <-> 100 <= pct.
Proof.
  unfold UI.getProgressColor. rewrite <- ge_true.
  destruct (UI.ge pct 100); [tauto|].
  destruct (UI.ge pct 80); [split; discriminate|].
  destruct (UI.ge pct 50); split; discriminate.
Qed.

Lemma getProgressColor_amber (pct : number) :
  UI.getProgressColor pct = "bg-amber-500" <-> 80 <= pct < 100.
Proof.
  unfold UI.getProgressColor.
  destruct (UI.ge pct 100) eqn:E1.
  - apply ge_true in E1. split; [discriminate|]. lra.
  - assert (pct < 100).
    { apply Qnot_le_lt. intros H. apply ge_true in H. congruence. }
    destruct (UI.ge pct 80) eqn:E2.
    + apply ge_true in E2. tauto.
    + assert (~ 80 <= pct) by (intros H'; apply ge_true in H'; congruence).
      destruct (UI.ge pct 50); split; try discriminate; tauto.
Qed.

Lemma allowance_row (m : UsageMetric) :
  Derived.allowance_metric m ->
  (UI.MetricRow m).(UI.payPerUse) = false /\
  (UI.MetricRow m).(UI.usedIsRed) = (UI.MetricRow m).(UI.overageShown) /\
  exists width,
    (UI.MetricRow m).(UI.bar)
      = Some (UI.getProgressColor m.(percentage), width) /\
    width <= 100 /\ width <= m.(percentage).
Proof.
  intros (Hl & Hc & _ & Hiff). unfold UI.MetricRow; cbn.
  assert (E : UI.gt (limit m) 0 = true) by now apply gt_true.
  rewrite E. cbn. split; [reflexivity|]. split.
  - apply bool_eq_iff. now rewrite !gt_true.
  - eexists. split; [reflexivity|]. unfold UI.Math_min.
    split; [apply Q.le_min_r|apply Q.le_min_l].
Qed.

Lemma positive_total (xs : list number) :
  (forall x, In x xs -> 0 <= x) ->
  (0 < Spec.total xs <-> exists x, In x xs /\ 0 < x).
Proof.
  induction xs as [|x xs IH]; intros H; cbn [Spec.total].
  - split; [intros H0; now apply Qlt_irrefl in H0|intros (x & [] & _)].
  - assert (Hx : 0 <= x) by (apply H; now left).
    assert (Hxs : forall y, In y xs -> 0 <= y) by (intros; apply H; now right).
    pose proof (total_nonneg xs Hxs) as Ht. specialize (IH Hxs).
    split.
    + intros Hpos. destruct (Qlt_le_dec 0 x) as [Hp|Hn].
      * exists x. split; [now left|exact Hp].
      * assert (0 < Spec.total xs) by lra.
        destruct (proj1 IH H0) as (y & Hy & Hy0).
        exists y. split; [now right|exact Hy0].
    + intros (y & [<-|Hy] & Hy0); [lra|].
      assert (0 < Spec.total xs) by (apply IH; now exists y). lra.
Qed.

End CardFacts.

(** X18.  The card of a product returned by an aggregator is consistent
    with its rows: its title is the service label, it counts the product's
    fixed number of metrics, and its header shows an overage amount exactly
    when some row does.  For every product but Images each row has a
    progress bar at most 100 wide, coloured by the percentage, and prints
    the percentage in red exactly when it shows an overage amount; the
    Images row has no bar and reads "Pay per use". *)
Theorem usage_card_agrees_with_rows (s : Slot) (w : World)
    (p : ProductUsage) :
  aggregator s w = Normal (Some p) ->
  let card := UI.UsageCard p in
  card.(UI.title) = service_name s /\
  card.(UI.tracked) = Derived.metric_count s /\
  (card.(UI.headerOverage) = true <->
   exists m, In m p.(metrics) /\ (UI.MetricRow m).(UI.overageShown) = true) /\
  (s <> Images ->
   Forall
     (fun m =>
        (UI.MetricRow m).(UI.payPerUse) = false /\
        (UI.MetricRow m).(UI.usedIsRed) = (UI.MetricRow m).(UI.overageShown) /\
        exists width,
          (UI.MetricRow m).(UI.bar)
            = Some (UI.getProgressColor m.(percentage), width) /\
          width <= 100 /\ width <= m.(percentage))
     p.(metrics)) /\
  (s = Images ->
   Forall
     (fun m =>
        (UI.MetricRow m).(UI.payPerUse) = true /\
        (UI.MetricRow m).(UI.bar) = None /\
        (UI.MetricRow m).(UI.usedIsRed) = false)
     p.(metrics)).
Proof.
  intros H card. apply aggregator_Normal_usage in H. injection H as ->.
  destruct (usage_of_shape s w) as (Hprod & Hlen & Htot & _).
  subst card. cbn [UI.UsageCard UI.title UI.tracked UI.headerOverage].
  split; [exact Hprod|]. split; [exact Hlen|]. split; [|split].
  - rewrite gt_true, Htot.
    destruct (Slot_eqb s Images) eqn:Es.
    + apply Slot_eqb_eq in Es. subst s. cbn [Derived.usage_of].
      unfold imagesUsage; cbv zeta. cbn [buildProductUsage metrics map Spec.total].
      split.
      * intros Hpos. eexists. split; [now left|].
        cbn [UI.MetricRow UI.overageShown buildMetric overageCost].
        apply gt_true. cbn [buildMetric overageCost] in Hpos. lra.
      * intros (m & [<-|[]] & Hm).
        cbn [UI.MetricRow UI.overageShown buildMetric overageCost] in *.
        apply gt_true in Hm. lra.
    + assert (Hne : s <> Images) by (intros ->; discriminate Es).
      pose proof (usage_of_allowance s w Hne) as Ha.
      rewrite Forall_forall in Ha.
      rewrite positive_total.
      * split.
        -- intros (x & Hx & Hpos). apply in_map_iff in Hx.
           destruct Hx as (m & <- & Hm). exists m. split; [exact Hm|].
           cbn [UI.MetricRow UI.overageShown]. now apply gt_true.
        -- intros (m & Hm & Hsh). exists m.(overageCost).
           split; [now apply in_map|].
           cbn [UI.MetricRow UI.overageShown] in Hsh. now apply gt_true in Hsh.
      * intros x Hx. apply in_map_iff in Hx. destruct Hx as (m & <- & Hm).
        now destruct (Ha m Hm) as (_ & Hc & _).
  - intros Hne. pose proof (usage_of_allowance s w Hne) as Ha.
    rewrite Forall_forall in *. intros m Hm. apply allowance_row. now apply Ha.
  - intros ->. cbn [Derived.usage_of]. unfold imagesUsage; cbv zeta.
    cbn [buildProductUsage metrics]. constructor; [|constructor].
    repeat split.
Qed.

Lemma usage_card_agrees_with_rows_witness :
  let p := Derived.usage_of Workers (Examples.world Examples.upstream_partial) in
  (UI.UsageCard p).(UI.title) = "Workers"%string /\
  (UI.UsageCard p).(UI.tracked) = 2%nat /\
  (UI.UsageCard p).(UI.headerOverage) = true.
Proof.
  intros p.
  destruct (usage_card_agrees_with_rows Workers
              (Examples.world Examples.upstream_partial) p eq_refl)
    as (H1 & H2 & _).
  split; [exact H1|]. split; [exact H2|]. vm_compute. reflexivity.
Defined.
Section QuickStatsFacts.

Local Open Scope list_scope.

Lemma allMetrics_In (d : CloudflareUsageData) (m : UsageMetric) :
  In m (UI.allMetrics d) <->
  exists s p, slot d s = Some p /\ In m p.(metrics).
Proof.
  unfold UI.allMetrics, UI.metrics_or_empty. rewrite !in_app_iff. split.
  - intros H.
    repeat destruct H as [H|H];
      [exists Workers|exists R2|exists KV|exists D1|exists Images|exists AI
      |exists Vectorize]; cbn [slot];
      match goal with
      | H : In _ (optchain ?o _ ?? _)%js |- _ =>
          destruct o as [p|]; [exists p; split; [reflexivity|exact H]
                              |destruct H]
      end.
  - intros (s & p & Hs & Hm).
    destruct s; cbn [slot] in Hs; rewrite Hs; cbn; tauto.
Qed.

Lemma at_least_100_percent (c l : number) :
  0 < l -> (100 <= c / l * 100 <-> l <= c).
Proof.
  intros Hl. pose proof (over_100_percent c l Hl) as H.
  split; intros H1.
  - apply Qnot_lt_le. intros H2.
    assert (E : c / l * 100 < 100).
    { assert (Hk : 0 < 100 / l).
      { apply Qlt_shift_div_l; [exact Hl|]. rewrite Qmult_0_l. reflexivity. }
      assert (E1 : c / l * 100 == c * (100 / l)) by (field; lra).
      assert (E2 : 100 == l * (100 / l)) by (field; lra).
      rewrite E1. rewrite E2 at 2. now apply Qmult_lt_r. }
    lra.
  - destruct (Qlt_le_dec l c) as [Hlt|Hle].
    + apply Qlt_le_weak. now apply H.
    + assert (E : c == l) by (apply Qle_antisym; assumption).
      rewrite E. apply Qle_lteq. right. field. lra.
Qed.

Lemma at_least_80_percent (c l : number) :
  0 < l -> (80 <= c / l * 100 <-> 0.8 * l <= c).
Proof.
  intros Hl.
  assert (Hk : 0 < 100 / l).
  { apply Qlt_shift_div_l; [exact Hl|]. rewrite Qmult_0_l. reflexivity. }
  assert (E1 : c / l * 100 == c * (100 / l)) by (field; lra).
  assert (E2 : 80 == (0.8 * l) * (100 / l)) by (field; lra).
  rewrite E1. rewrite E2 at 1. apply Qmult_le_r. exact Hk.
Qed.

(** How the two counters read a metric that obeys the percentage rule. *)
Lemma counters_on_rule (m : UsageMetric) :
  Derived.percentage_rule m ->
  (UI.ge m.(percentage) 100 = true <->
   0 < m.(limit) /\ m.(limit) <= m.(current)) /\
  (UI.ge m.(percentage) 80 && UI.lt m.(percentage) 100 = true <->
   0 < m.(limit) /\ 0.8 * m.(limit) <= m.(current) /\ m.(current) < m.(limit)).
Proof.
  intros [Hpos Hzero]. rewrite andb_true_iff, !ge_true, lt_true.
  destruct (Qlt_le_dec 0 (limit m)) as [Hl|Hl].
  - specialize (Hpos Hl). rewrite Hpos.
    rewrite (at_least_100_percent _ _ Hl), (at_least_80_percent _ _ Hl).
    pose proof (at_least_100_percent (current m) (limit m) Hl) as H100.
    split; [tauto|]. split.
    + intros [H1 H2]. split; [exact Hl|]. split; [exact H1|].
      apply Qnot_le_lt. intros H3. apply H100 in H3. lra.
    + intros (_ & H1 & H2). split; [exact H1|].
      apply Qnot_le_lt. intros H3. apply H100 in H3. lra.
  - specialize (Hzero Hl). rewrite Hzero. split; split; intros; lra.
Qed.

End QuickStatsFacts.

(** X19.  On a summary of [$fetchAllUsage] the two quick-stats counters
    read the limits: a metric is counted over limit exactly when it has a
    positive limit and its current value has reached it, and at risk exactly
    when it has a positive limit and its current value is at least 80% of
    the limit but below it.  No metric is counted twice, and the Images
    metric, which has no limit, is never counted. *)
Theorem quick_stats_read_the_limits (w : World) (d : CloudflareUsageData) :
  fetchAllUsage w = Normal d ->
  (forall m,
     In m (UI.overLimit d) <->
     In m (UI.allMetrics d) /\ 0 < m.(limit) /\ m.(limit) <= m.(current)) /\
  (forall m,
     In m (UI.atRisk d) <->
     In m (UI.allMetrics d) /\ 0 < m.(limit) /\
     0.8 * m.(limit) <= m.(current) /\ m.(current) < m.(limit)) /\
  (forall m, In m (UI.overLimit d) -> In m (UI.atRisk d) -> False) /\
  (forall p m, d.(images) = Some p -> In m p.(metrics) ->
     ~ In m (UI.overLimit d) /\ ~ In m (UI.atRisk d)).
Proof.
  intros Hd.
  assert (Hid : falsy w.(env).(CLOUDFLARE_ACCOUNT_ID) = false).
  { destruct (falsy (CLOUDFLARE_ACCOUNT_ID (env w))) eqn:E; [|reflexivity].
    unfold fetchAllUsage in Hd.
    rewrite (fetchAllUsage_unconfigured _ _ _ _ _ E) in Hd. discriminate Hd. }
  destruct (fetchAllUsage_run w Hid) as (d' & Hd' & Hs & _).
  rewrite Hd in Hd'. injection Hd' as <-.
  assert (Hrule : forall m, In m (UI.allMetrics d) -> Derived.percentage_rule m).
  { intros m Hm. apply allMetrics_In in Hm. destruct Hm as (s & p & Hsl & Hm).
    rewrite (slot_is_usage w d s p Hs Hsl) in Hm.
    destruct (usage_of_shape s w) as (_ & _ & _ & HF).
    rewrite Forall_forall in HF. now apply HF. }
  assert (H1 : forall m,
     In m (UI.overLimit d) <->
     In m (UI.allMetrics d) /\ 0 < m.(limit) /\ m.(limit) <= m.(current)).
  { intros m. unfold UI.overLimit. rewrite filter_In. split.
    - intros [Hm Hc]. split; [exact Hm|].
      now apply (counters_on_rule m (Hrule m Hm)).
    - intros [Hm Hc]. split; [exact Hm|].
      now apply (counters_on_rule m (Hrule m Hm)). }
  assert (H2 : forall m,
     In m (UI.atRisk d) <->
     In m (UI.allMetrics d) /\ 0 < m.(limit) /\
     0.8 * m.(limit) <= m.(current) /\ m.(current) < m.(limit)).
  { intros m. unfold UI.atRisk. rewrite filter_In. split.
    - intros [Hm Hc]. split; [exact Hm|].
      now apply (counters_on_rule m (Hrule m Hm)).
    - intros [Hm Hc]. split; [exact Hm|].
      now apply (counters_on_rule m (Hrule m Hm)). }
  split; [exact H1|]. split; [exact H2|]. split.
  - intros m Ho Ha. apply H1 in Ho. apply H2 in Ha. lra.
  - intros p m Hp Hm.
    assert (Hl : m.(limit) = 0).
    { change (images d) with (slot d Images) in Hp.
      rewrite (slot_is_usage w d Images p Hs Hp) in Hm.
      cbn [Derived.usage_of] in Hm. unfold imagesUsage in Hm; cbv zeta in Hm.
      cbn [buildProductUsage metrics] in Hm. destruct Hm as [<-|[]].
      reflexivity. }
    split; intros Hin; [apply H1 in Hin|apply H2 in Hin];
      rewrite Hl in Hin; destruct Hin as (_ & Hpos & _);
      now apply Qlt_irrefl in Hpos.
Qed.

Lemma quick_stats_read_the_limits_witness :
  exists d,
    fetchAllUsage (Examples.world Examples.upstream_partial) = Normal d /\
    (forall m, In m (UI.overLimit d) -> 0 < m.(limit) <= m.(current)) /\
    List.length (UI.overLimit d) = 2%nat.
Proof.
  destruct (fetchAllUsage (Examples.world Examples.upstream_partial))
    as [d|e] eqn:Hd; [|discriminate Hd].
  exists d. split; [reflexivity|].
  destruct (quick_stats_read_the_limits
              (Examples.world Examples.upstream_partial) d Hd) as (H1 & _).
  split.
  - intros m Hm. apply H1 in Hm. tauto.
  - vm_compute in Hd. injection Hd as <-. reflexivity.
Defined.
(** ** The account-id server function and the upstream error message *)

(** X20.  [$getAccountId] never throws: it returns the account id when one
    is set (a non-empty string) and [null] otherwise, and it returns [null]
    exactly when [$fetchAllUsage] would be refused with "Missing
    CLOUDFLARE_ACCOUNT_ID". *)
Theorem server_getAccountId_never_throws (env : Env) :
  (exists r, server_getAccountId env = Normal r) /\
  (server_getAccountId env = Normal None <->
   falsy env.(CLOUDFLARE_ACCOUNT_ID) = true) /\
  (forall id,
     server_getAccountId env = Normal (Some id) <->
     env.(CLOUDFLARE_ACCOUNT_ID) = Some id /\ id <> EmptyString) /\
  (forall tza now settle call,
     server_getAccountId env = Normal None <->
     fetchAllUsage_from env tza now settle call
     = Throw "Missing CLOUDFLARE_ACCOUNT_ID").
Proof.
  unfold server_getAccountId, fetchAllUsage_from, getAccountId, falsy.
  destruct (CLOUDFLARE_ACCOUNT_ID env) as [[|c rest]|]; cbn [bind].
  - split; [now eexists|]. split; [tauto|]. split.
    + intros id. split; [discriminate|]. intros [H Hne]. injection H as <-.
      now elim Hne.
    + intros. tauto.
  - split; [now eexists|]. split; [split; discriminate|]. split.
    + intros id. split.
      * intros H. injection H as <-. split; [reflexivity|discriminate].
      * intros [H _]. now injection H as <-.
    + intros tza now settle call.
      destruct (Promise_all _ _ _) as [res errs].
      split; discriminate.
  - split; [now eexists|]. split; [tauto|]. split.
    + intros id. split; [discriminate|]. intros [H _]. discriminate H.
    + intros. tauto.
Qed.

Section ErrorMessage.




End ErrorMessage.



Section WorkersTotals.


End WorkersTotals.

(** ** The reported billing period on a UTC host *)

Section BillingPeriodUTC.

Local Open Scope Z_scope.

Lemma newDate_utc (y mn dt : Z) :
  ~ (0 <= y <= 99) ->
  newDate 0 y mn dt = MakeDate (MakeDay y mn dt) 0.
Proof.
  intros Hy. unfold newDate, UTC; cbv zeta.
  replace ((0 <=? y) && (y <=? 99)) with false.
  - change (MakeTime 0 0 0 0) with 0. lia.
  - symmetry. apply andb_false_iff.
    destruct (Z.leb_spec 0 y); [|now left].
    destruct (Z.leb_spec y 99); [|now right]. lia.
Qed.

Lemma toISOString_last_day_midnight (y mn : Z) :
  0 <= mn <= 11 ->
  toISOString (MakeDate (MakeDay y mn (MonthLength y mn)) 0)
  = (isoYear y ++ "-" ++ digits 2 (mn + 1) ++ "-" ++
     digits 2 (MonthLength y mn) ++ "T00:00:00.000Z")%string.
Proof.
  intros H. pose proof (MonthLength_range y mn).
  destruct (civil_fields y mn (MonthLength y mn) 0 H
              ltac:(lia) ltac:(unfold msPerDay; lia))
    as (HY & HM & HD & _).
  unfold toISOString. rewrite HY, HM, HD.
  unfold MakeDate. rewrite Z.add_0_r.
  destruct (midnight_fields (MakeDay y mn (MonthLength y mn)))
    as (-> & -> & -> & ->).
  reflexivity.
Qed.

End BillingPeriodUTC.

(** X23.  On a host whose local time is UTC, and for a year that is not
    between 0 and 99, the billing period of the summary starts at the
    instant [getMonthStart] prints, the first of the month of [now] at
    00:00:00.000, and ends on the last day of that month at 00:00:00.000,
    the day [getMonthEnd] aims at but 23:59:59.999 earlier. *)
Theorem billing_period_on_utc_host (env : Env) (now : Z)
    (settle : Slot -> nat) (call : Slot -> Completion (option ProductUsage)) :
  falsy env.(CLOUDFLARE_ACCOUNT_ID) = false ->
  ~ (0 <= YearFromTime now <= 99)%Z ->
  let y := YearFromTime now in
  let m := MonthFromTime now in
  exists d,
    fetchAllUsage_from env 0 now settle call = Normal d /\
    d.(billingPeriod).(start) = getMonthStart now /\
    d.(billingPeriod).(end_)
      = (isoYear y ++ "-" ++ digits 2 (m + 1) ++ "-" ++
         digits 2 (MonthLength y m) ++ "T00:00:00.000Z")%string /\
    toISOString (month_last_ms y m)
      = (isoYear y ++ "-" ++ digits 2 (m + 1) ++ "-" ++
         digits 2 (MonthLength y m) ++ "T23:59:59.999Z")%string.
Proof.
  intros Hid Hy. cbv zeta.
  destruct (civil_decomposition now) as (Hm & _).
  destruct (fetchAllUsage_from_run call env 0 now settle Hid)
    as (d & Hd & _ & _ & _ & Hb).
  exists d. split; [exact Hd|]. rewrite Hb. cbn [start end_].
  unfold getFullYear, getMonth, LocalTime. rewrite Z.add_0_r.
  rewrite getMonthStart_instant. unfold month_first_ms.
  revert Hy Hm.
  generalize (YearFromTime now) as y. generalize (MonthFromTime now) as m.
  intros m y Hy Hm. rewrite !newDate_utc by exact Hy.
  split; [reflexivity|]. split.
  - rewrite MakeDay_next, MakeDay_month_end by exact Hm.
    now apply toISOString_last_day_midnight.
  - now apply toISOString_last_of_month.
Qed.

Lemma billing_period_on_utc_host_witness :
  exists d,
    fetchAllUsage_from Examples.env_ok 0 Examples.mid_march_2024
      (fun _ => 0%nat) (fun _ => Throw "timeout") = Normal d /\
    d.(billingPeriod).(start) = getMonthStart Examples.mid_march_2024 /\
    d.(billingPeriod).(end_) = "2024-03-31T00:00:00.000Z"%string.
Proof.
  destruct (billing_period_on_utc_host Examples.env_ok
              Examples.mid_march_2024 (fun _ => 0%nat)
              (fun _ => Throw "timeout"))
    as (d & Hd & Hs & He & _).
  - reflexivity.
  - vm_compute. intros [_ H]. now apply H.
  - exists d. split; [exact Hd|]. split; [exact Hs|]. rewrite He.
    vm_compute. reflexivity.
Defined.

(** X24.  The D1 aggregator adds up all groups it is given: rows read and
    rows written are summed over every analytics group, and the storage
    metric is the sum of the sizes of all storage groups converted to GB, so
    a further storage group adds its size (where R2 and Workers KV read the
    first group only); none of the three depends on the order of the
    groups. *)
Theorem d1_sums_every_group (analytics : list D1AnalyticsGroup)
    (storage : list D1StorageGroup) :
  exists rd wr st,
    (d1Usage analytics storage).(metrics) = [rd; wr; st] /\
    rd.(current)
      == Spec.total (map (fun g => (g.(rowsRead) ?? 0)%js) analytics) /\
    wr.(current)
      == Spec.total (map (fun g => (g.(rowsWritten) ?? 0)%js) analytics) /\
    st.(current)
      == bytesToGB
           (Spec.total
              (map (fun g => (g.(databaseSizeBytes) ?? 0)%js) storage)) /\
    (forall g,
       exists rd' wr' st',
         (d1Usage analytics (storage ++ [g])).(metrics) = [rd'; wr'; st'] /\
         st'.(current)
           == st.(current) + bytesToGB (g.(databaseSizeBytes) ?? 0)%js) /\
    (forall analytics' storage',
       Permutation analytics analytics' -> Permutation storage storage' ->
       exists rd' wr' st',
         (d1Usage analytics' storage').(metrics) = [rd'; wr'; st'] /\
         rd'.(current) == rd.(current) /\
         wr'.(current) == wr.(current) /\
         st'.(current) == st.(current)).
Proof.
  unfold d1Usage; cbv zeta. cbn [buildProductUsage metrics].
  eexists. eexists. eexists. split; [reflexivity|].
  cbn [buildMetric current].
  split; [apply sumField_total|]. split; [apply sumField_total|].
  split; [unfold bytesToGB; now rewrite sumField_total|]. split.
  - intros g. eexists. eexists. eexists. split; [reflexivity|].
    cbn [buildMetric current]. unfold bytesToGB.
    rewrite !sumField_total, map_app, total_app. cbn [map Spec.total].
    field.
  - intros analytics' storage' HA HS.
    eexists. eexists. eexists. split; [reflexivity|].
    cbn [buildMetric current]. unfold bytesToGB.
    rewrite !sumField_total.
    split; [|split].
    + apply total_Permutation, Permutation_map. now symmetry.
    + apply total_Permutation, Permutation_map. now symmetry.
    + apply Qmult_comp; [|reflexivity].
      apply total_Permutation, Permutation_map. now symmetry.
Qed.

